(** * KO2Pathway: ortholog-to-pathway resolution and aggregation

    A shallow embedding of [KO2Pathway.py].

    - Python strings are ASCII [string]s; [lower], [strip] and the
      character classes of [re] are the ASCII ones ([\d] is 0-9), so what
      is stated of text is stated of ASCII text; an input file with other
      characters is [Unsupported].
    - The frames the script builds are lists of rows of text; a missing
      value of the input is [None].
    - The file system is a finite map from paths to file contents, and a
      run is a command over the [world]: the files and the log of the
      requests, pauses and plots made so far.  Exceptions are the [Raise]
      outcome; what was written before one stays written.
    - The KEGG REST service is a function from the request number and the
      URL to a response; a connection that fails outright is not modelled.
    - Of pandas' readers and of [re] the part the script's own files and
      patterns need is modelled; input outside of it gives [Unsupported].
    - Writing a file succeeds unless its path is empty: a missing
      directory or a path that cannot be written is not modelled, and
      neither is a failure of saving or showing the chart.
    - [sort_values] is a parameter of the pipeline: the order pandas gives
      to rows of equal count is that of NumPy's sort, which the script
      does not fix.
    - Console output and the drawing of the chart are not modelled. *)

From Stdlib Require Import String Ascii List Bool Arith Lia Permutation Sorted.
From stdpp Require Import base gmap strings pretty.
Import ListNotations.

(** ** Python string operations *)

Definition TAB : ascii := "009"%char.
Definition NL : ascii := "010"%char.
Definition CR : ascii := "013"%char.
Definition DQUOTE : ascii := "034"%char.

Definition chr (c : ascii) : string := String c "".

(** [str.isspace] on the ASCII range: 9-13, 28-31 and the blank. *)
Definition py_isspace (c : ascii) : bool :=
  let n := nat_of_ascii c in
  ((9 <=? n) && (n <=? 13)) || ((28 <=? n) && (n <=? 32)).

Fixpoint lstrip (s : string) : string :=
  match s with
  | "" => ""
  | String c s' => if py_isspace c then lstrip s' else s
  end.

Fixpoint rstrip (s : string) : string :=
  match s with
  | "" => ""
  | String c s' =>
      match rstrip s' with
      | "" => if py_isspace c then "" else chr c
      | r => String c r
      end
  end.

(** [s.strip()] *)
Definition strip (s : string) : string := rstrip (lstrip s).

(** [s.split(sep)] for a one-character separator: never the empty list. *)
Fixpoint split_on (sep : ascii) (s : string) : list string :=
  match s with
  | "" => [""]
  | String c s' =>
      if Ascii.eqb c sep then "" :: split_on sep s'
      else match split_on sep s' with
           | h :: t => String c h :: t
           | [] => [chr c]
           end
  end.

(** [sep.join(l)] *)
Fixpoint join (sep : string) (l : list string) : string :=
  match l with
  | [] => ""
  | [x] => x
  | x :: t => x +:+ sep +:+ join sep t
  end.

(** [s.startswith(p)] *)
Definition startswith (p s : string) : bool := String.prefix p s.

(** [s.replace(old, new)] for a non-empty [old]: occurrences are replaced
    from left to right and do not overlap.  [skip] counts the characters of
    the occurrence found last that are still to be passed over. *)
Fixpoint replace_go (old new : string) (skip : nat) (s : string) : string :=
  match s with
  | "" => ""
  | String c s' =>
      match skip with
      | S k => replace_go old new k s'
      | O =>
          if String.prefix old s
          then new +:+ replace_go old new (String.length old - 1) s'
          else String c (replace_go old new 0 s')
      end
  end.

Definition replace (old new s : string) : string := replace_go old new 0 s.

Definition lower_ascii (c : ascii) : ascii :=
  let n := nat_of_ascii c in
  if (65 <=? n) && (n <=? 90) then ascii_of_nat (n + 32) else c.

(** [s.lower()] *)
Fixpoint lower (s : string) : string :=
  match s with
  | "" => ""
  | String c s' => String (lower_ascii c) (lower s')
  end.

(** [t in s] *)
Fixpoint contains (t s : string) : bool :=
  String.prefix t s ||
  match s with
  | "" => false
  | String _ s' => contains t s'
  end.

(** Order-preserving removal of repeats, as [Series.unique] does. *)
Fixpoint unique (l : list string) : list string :=
  match l with
  | [] => []
  | x :: t => x :: List.filter (fun y => negb (String.eqb x y)) (unique t)
  end.

(** ** Regular expressions (the fragment of [re] the script relies on) *)

Inductive cclass :=
| CLit (c : ascii)   (* a literal character *)
| CDot               (* [.]: anything but a newline *)
| CDigit             (* [\d] *)
| CUpper             (* [[A-Z]] *)
| CAll.              (* any character *)

Definition is_digit (c : ascii) : bool :=
  let n := nat_of_ascii c in (48 <=? n) && (n <=? 57).

Definition is_upper (c : ascii) : bool :=
  let n := nat_of_ascii c in (65 <=? n) && (n <=? 90).

Definition cclass_mem (k : cclass) (c : ascii) : bool :=
  match k with
  | CLit d => Ascii.eqb d c
  | CDot => negb (Ascii.eqb c NL)
  | CDigit => is_digit c
  | CUpper => is_upper c
  | CAll => true
  end.

Inductive regex :=
| RNone
| REps
| RCls (k : cclass)
| RCat (r1 r2 : regex)
| RAlt (r1 r2 : regex)
| RStar (r : regex).

Fixpoint nullable (r : regex) : bool :=
  match r with
  | RNone => false
  | REps => true
  | RCls _ => false
  | RCat r1 r2 => nullable r1 && nullable r2
  | RAlt r1 r2 => nullable r1 || nullable r2
  | RStar _ => true
  end.

Fixpoint deriv (c : ascii) (r : regex) : regex :=
  match r with
  | RNone => RNone
  | REps => RNone
  | RCls k => if cclass_mem k c then REps else RNone
  | RCat r1 r2 =>
      if nullable r1
      then RAlt (RCat (deriv c r1) r2) (deriv c r2)
      else RCat (deriv c r1) r2
  | RAlt r1 r2 => RAlt (deriv c r1) (deriv c r2)
  | RStar r1 => RCat (deriv c r1) (RStar r1)
  end.

(** The whole of [s] is in the language of [r]. *)
Fixpoint matches (r : regex) (s : string) : bool :=
  match s with
  | "" => nullable r
  | String c s' => matches (deriv c r) s'
  end.

Fixpoint rseq (l : list regex) : regex :=
  match l with
  | [] => REps
  | r :: t => RCat r (rseq t)
  end.

(** [re.match('^' + r + '$', s)]: [$] also matches just before a newline
    that ends the string. *)
Definition re_match_anchored (r : regex) (s : string) : bool :=
  matches (RAlt r (RCat r (RCls (CLit NL)))) s.

(** [re.search(r, s)] *)
Definition re_search (r : regex) (s : string) : bool :=
  matches (RCat (RStar (RCls CAll)) (RCat r (RStar (RCls CAll)))) s.

(** [K\d{5}], the pattern of line 24 *)
Definition ko_pattern : regex :=
  rseq [RCls (CLit "K"%char); RCls CDigit; RCls CDigit; RCls CDigit; RCls CDigit;
        RCls CDigit].

(** [[A-Z]\d{5}], the pattern the specification names *)
Definition letter_pattern : regex :=
  rseq [RCls CUpper; RCls CDigit; RCls CDigit; RCls CDigit; RCls CDigit;
        RCls CDigit].

(** ** Identifier normalizer: [preprocess_input] *)

(** A row of the two-column input after [read_csv]: [ko_raw] is [None]
    where pandas holds NaN. *)
Record raw_row := { gene : string; ko_raw : option string }.

Record id_record := { rec_gene : string; ko : string }.

(** Line 18: [df['ko_raw'].notna() & (df['ko_raw'] != "-")] *)
Definition present (r : raw_row) : bool :=
  match ko_raw r with
  | None => false
  | Some raw => negb (String.eqb raw "-")
  end.

(** Line 20: [str.split(',')] followed by [explode('ko')]. *)
Definition explode (r : raw_row) : list id_record :=
  match ko_raw r with
  | None => []
  | Some raw =>
      List.map (fun piece => {| rec_gene := gene r; ko := piece |})
               (split_on ","%char raw)
  end.

(** Line 22 *)
Definition strip_prefix (r : id_record) : id_record :=
  {| rec_gene := rec_gene r; ko := replace "ko:" "" (ko r) |}.

(** Line 24 *)
Definition valid_ko (r : id_record) : bool :=
  re_match_anchored ko_pattern (ko r).

(** Lines 17-26, on a frame whose code column holds text.  (On a frame
    with rows and no text in the column, [.str] on line 20 raises; see
    [text_column].) *)
Definition preprocess_input (df : list raw_row) : list id_record :=
  List.filter valid_ko
    (List.map strip_prefix (List.flat_map explode (List.filter present df))).

(** Line 133: [ko_df['ko'].unique()] *)
Definition ko_list_of (ko_df : list id_record) : list string :=
  unique (List.map ko ko_df).

(** ** Outcomes, the world and the command monad *)

Inductive exn :=
| KeyError (key : string)
| IndexError
| EmptyDataError
| FileNotFoundError (path : string)
| ReError
| Unsupported (what : string).  (* input outside the fragment modelled *)

Inductive outcome (A : Type) :=
| Ok (a : A)
| Raise (e : exn).
Arguments Ok {A} a.
Arguments Raise {A} e.

(** What [requests.get] hands back. *)
Record response := { status_code : nat; text : string }.

Inductive event :=
| EvGet (url : string)
| EvSleep (ms : nat)
| EvSavefig (path : string) (bars : list (string * nat))
| EvShow.

(** Files on disk and the events of the run so far, oldest first. *)
Record world := { fs : gmap string string; log : list event }.

Definition M (A : Type) : Type := world -> outcome A * world.

Global Instance M_ret : MRet M := fun A a w => (Ok a, w).

Global Instance M_bind : MBind M := fun A B f m w =>
  match m w with
  | (Ok a, w') => f a w'
  | (Raise e, w') => (Raise e, w')
  end.

Global Instance M_throw : MThrow exn M := fun A e w => (Raise e, w).

Definition lift {A} (o : outcome A) : M A := fun w => (o, w).

Definition emit (e : event) : M unit :=
  fun w => (Ok tt, {| fs := fs w; log := log w ++ [e] |}).

(** [sleep(0.2)] *)
Definition sleep (ms : nat) : M unit := emit (EvSleep ms).

Definition is_get (e : event) : bool :=
  match e with EvGet _ => true | _ => false end.

Definition requests_made (l : list event) : nat :=
  List.length (List.filter is_get l).

(** [os.path.exists] *)
Definition path_exists (p : string) : M bool :=
  fun w => (Ok (bool_decide (is_Some (fs w !! p))), w).

Definition read_file (p : string) : M string :=
  fun w => match fs w !! p with
           | Some content => (Ok content, w)
           | None => (Raise (FileNotFoundError p), w)
           end.

Definition write_file (p content : string) : M unit :=
  fun w => if String.eqb p "" then (Raise (FileNotFoundError p), w)
           else (Ok tt, {| fs := <[p := content]> (fs w); log := log w |}).

(** Truth value of a Python string or [None]. *)
Definition truthy (o : option string) : bool :=
  match o with
  | Some s => negb (String.eqb s "")
  | None => false
  end.

(** ** Tab-separated files *)

Definition mem_string (s : string) (l : list string) : bool :=
  existsb (String.eqb s) l.

Definition has_char (c : ascii) (s : string) : bool := contains (chr c) s.

(** The default [na_values] of [read_csv]. *)
Definition na_values : list string :=
  [""; "#N/A"; "#N/A N/A"; "#NA"; "-1.#IND"; "-1.#QNAN"; "-NaN"; "-nan";
   "1.#IND"; "1.#QNAN"; "<NA>"; "N/A"; "NA"; "NULL"; "NaN"; "None"; "n/a";
   "nan"; "null"].

Definition drop_sign (s : string) : string :=
  match s with
  | String c s' =>
      if Ascii.eqb c "+"%char || Ascii.eqb c "-"%char then s' else s
  | "" => ""
  end.

(** A cell that [read_csv] keeps as the text it finds: not a missing-value
    marker, nothing its type inference could take for a number or a
    boolean, no blank at either end. *)
Definition plain_cell (s : string) : bool :=
  String.eqb (strip s) s
  && negb (mem_string s na_values)
  && negb (mem_string (lower (drop_sign s)) ["inf"; "infinity"; "nan"; "true"; "false"])
  && match drop_sign s with
     | String c _ => negb (is_digit c || Ascii.eqb c "."%char)
     | "" => true
     end.

(** The records of a file, blank lines skipped, split at the tabs. *)
Definition table_lines (content : string) : list (list string) :=
  List.map (split_on TAB)
    (List.filter (fun l => negb (String.eqb l "")) (split_on NL content)).

Fixpoint nodupb (l : list string) : bool :=
  match l with
  | [] => true
  | x :: t => negb (mem_string x t) && nodupb t
  end.

(** A frame whose cells are all text: the KO-pathway mapping. *)
Record frame := { columns : list string; rows : list (list string) }.

(** [pd.read_csv(cache_file, sep='\t')]: the first record names the
    columns.  Quoted fields, carriage returns, ragged rows and cells that
    are not [plain_cell]s are outside the model. *)
Definition read_csv (content : string) : outcome frame :=
  if has_char DQUOTE content || has_char CR content
  then Raise (Unsupported "quoted field or carriage return")
  else
    match table_lines content with
    | [] => Raise EmptyDataError   (* No columns to parse from file *)
    | header :: body =>
        if forallb plain_cell header && nodupb header
           && forallb (fun r => (List.length r =? List.length header)
                                && forallb plain_cell r) body
        then Ok {| columns := header; rows := body |}
        else Raise (Unsupported "cell not read back as text")
    end.

(** The csv writer quotes a field that holds the delimiter, a quote or a
    character of the line terminator, which [to_csv] sets to the line
    break, doubling the quotes inside; a carriage return alone does not
    make it quote. *)
Definition needs_quote (s : string) : bool :=
  has_char TAB s || has_char DQUOTE s || has_char NL s.

Definition csv_field (s : string) : string :=
  if needs_quote s
  then chr DQUOTE +:+ replace (chr DQUOTE) (chr DQUOTE +:+ chr DQUOTE) s
       +:+ chr DQUOTE
  else s.

Definition csv_line (fields : list string) : string :=
  match fields with
  | [""] => chr DQUOTE +:+ chr DQUOTE +:+ chr NL
  | _ => join (chr TAB) (List.map csv_field fields) +:+ chr NL
  end.

(** [df.to_csv(path, sep='\t', index=False)]: the header record, then one
    record per row.  A frame without columns gives a lone line break. *)
Definition to_csv (df : frame) : string :=
  csv_line (columns df) +:+ String.concat "" (List.map csv_line (rows df)).

(** [pd.DataFrame(records)] for a list of [{"ko": .., "pathway_id": ..}]:
    the columns come from the records, so no record means no column. *)
Definition DataFrame (records : list (string * string)) : frame :=
  match records with
  | [] => {| columns := []; rows := [] |}
  | _ => {| columns := ["ko"; "pathway_id"];
            rows := List.map (fun r => [fst r; snd r]) records |}
  end.

(** An edge whose two cells go through the cache file unchanged: the
    writer does not quote them, they hold no carriage return, and the
    reader takes them as text. *)
Definition edge_ok (e : string * string) : bool :=
  plain_cell (fst e) && plain_cell (snd e)
  && negb (needs_quote (fst e)) && negb (needs_quote (snd e))
  && negb (has_char CR (fst e)) && negb (has_char CR (snd e)).

Fixpoint index_of (name : string) (cols : list string) : option nat :=
  match cols with
  | [] => None
  | c :: t => if String.eqb c name then Some 0
              else option_map S (index_of name t)
  end.

(** [df[name]] *)
Definition column (df : frame) (name : string) : outcome (list string) :=
  match index_of name (columns df) with
  | None => Raise (KeyError name)
  | Some i => Ok (List.map (fun r => nth i r "") (rows df))
  end.

(** Text in the ASCII range. *)
Fixpoint ascii_text (s : string) : bool :=
  match s with
  | "" => true
  | String c s' => (nat_of_ascii c <? 128) && ascii_text s'
  end.

(** [pd.read_csv(input_file, sep='\t', header=None, names=['gene','ko_raw'])].
    Records of more than two fields, cells that [read_csv] would not keep
    as the text found (a gene such as [007] or [NA] among them), text
    outside the ASCII range, and a code column without any text in it
    (pandas gives it the type float64, and [.str] on line 20 raises) are
    outside the model. *)
Definition input_row (fields : list string) : outcome raw_row :=
  match fields with
  | [g] =>
      if plain_cell g then Ok {| gene := g; ko_raw := None |}
      else Raise (Unsupported "gene not read as text")
  | [g; k] =>
      if negb (plain_cell g) then Raise (Unsupported "gene not read as text")
      else if mem_string k na_values then Ok {| gene := g; ko_raw := None |}
      else if plain_cell k then Ok {| gene := g; ko_raw := Some k |}
      else Raise (Unsupported "code field not read as text")
  | _ => Raise (Unsupported "more than two fields")
  end.

Fixpoint collect {A} (l : list (outcome A)) : outcome (list A) :=
  match l with
  | [] => Ok []
  | Ok a :: t =>
      match collect t with
      | Ok r => Ok (a :: r)
      | Raise e => Raise e
      end
  | Raise e :: _ => Raise e
  end.

Definition read_input (content : string) : outcome (list raw_row) :=
  if has_char DQUOTE content || has_char CR content
  then Raise (Unsupported "quoted field or carriage return")
  else if negb (ascii_text content)
  then Raise (Unsupported "text outside the ASCII range")
  else
    match table_lines content with
    | [] => Ok []   (* with [names=] a file without records is an empty frame *)
    | records =>
        match collect (List.map input_row records) with
        | Ok df =>
            if existsb (fun r => bool_decide (is_Some (ko_raw r))) df
            then Ok df
            else Raise (Unsupported "code column without text")
        | Raise e => Raise e
        end
    end.

(** ** Compiling an exclusion pattern

    [str.contains(pattern)] compiles [pattern] as a regular expression.
    The fragment modelled has literal characters, [.], alternation [|] and
    plain groups; every other operator is reported as [Unsupported]. *)

Definition is_meta (c : ascii) : bool :=
  existsb (Ascii.eqb c)
    ["."; "^"; "$"; "*"; "+"; "?"; "{"; "}"; "["; "]"; "\"; "|"; "("; ")"]%char.

Definition branches (alts : option regex) (cur : regex) : regex :=
  match alts with
  | None => cur
  | Some a => RAlt a cur
  end.

(** [alts] holds the branches already closed by a [|], [cur] the sequence
    being read.  Parsing stops at the end or in front of a [)]. *)
Fixpoint re_parse (fuel : nat) (alts : option regex) (cur : regex)
    (s : string) : outcome (regex * string) :=
  match fuel with
  | O => Raise (Unsupported "pattern")
  | S fuel' =>
      match s with
      | "" => Ok (branches alts cur, "")
      | String c s' =>
          if Ascii.eqb c "|"%char
          then re_parse fuel' (Some (branches alts cur)) REps s'
          else if Ascii.eqb c ")"%char then Ok (branches alts cur, s)
          else if Ascii.eqb c "("%char then
            if String.prefix "?" s' then Raise (Unsupported "group extension")
            else
              match re_parse fuel' None REps s' with
              | Ok (g, String _ rest) => re_parse fuel' alts (RCat cur g) rest
              | Ok (_, "") => Raise ReError   (* missing ) *)
              | Raise e => Raise e
              end
          else if Ascii.eqb c "."%char
          then re_parse fuel' alts (RCat cur (RCls CDot)) s'
          else if is_meta c then Raise (Unsupported "regex operator")
          else re_parse fuel' alts (RCat cur (RCls (CLit c))) s'
      end
  end.

(** A term without any operator of the pattern language. *)
Fixpoint literal (t : string) : bool :=
  match t with
  | "" => true
  | String c t' => negb (is_meta c) && literal t'
  end.

(** What a run of literal characters adds to the sequence being read. *)
Fixpoint lits (cur : regex) (t : string) : regex :=
  match t with
  | "" => cur
  | String c t' => lits (RCat cur (RCls (CLit c))) t'
  end.

(** [m] is matched by one of the branches closed so far. *)
Definition alts_match (alts : option regex) (m : string) : Prop :=
  match alts with
  | Some a => matches a m = true
  | None => False
  end.

(** [re.compile(pattern)] *)
Definition re_compile (pattern : string) : outcome regex :=
  match re_parse (S (String.length pattern)) None REps pattern with
  | Ok (r, "") => Ok r
  | Ok (_, String _ _) => Raise ReError   (* unbalanced parenthesis *)
  | Raise e => Raise e
  end.

(** ** Summary rows and their aggregation *)

Record summary_row :=
  { pathway_id : string; pathway_description : string; KO_count : nat }.

(** Grouping key [(pathway_id, pathway_description)], compared as Python
    compares tuples of strings. *)
Definition key_of (r : summary_row) : string * string :=
  (pathway_id r, pathway_description r).

Definition key_compare (a b : string * string) : comparison :=
  match String.compare (fst a) (fst b) with
  | Eq => String.compare (snd a) (snd b)
  | c => c
  end.

Definition key_lt (a b : string * string) : Prop := key_compare a b = Lt.

Definition key_eq_dec (a b : string * string) : {a = b} + {a <> b} :=
  prod_eq_dec a b.

(** The rows of a table stand in strictly increasing key order. *)
Definition key_sorted (l : list summary_row) : Prop :=
  StronglySorted (fun a b => key_lt (key_of a) (key_of b)) l.

Definition has_key (k : string * string) (r : summary_row) : bool :=
  bool_decide (key_of r = k).

(** Total of the counts a table gives for a key. *)
Definition count_for (k : string * string) (l : list summary_row) : nat :=
  list_sum (List.map KO_count (List.filter (has_key k) l)).

(** One more member for the group of [k], the groups kept in key order. *)
Fixpoint count_in (k : string * string) (groups : list summary_row)
    : list summary_row :=
  match groups with
  | [] => [{| pathway_id := fst k; pathway_description := snd k; KO_count := 1 |}]
  | g :: t =>
      match key_compare k (key_of g) with
      | Eq => {| pathway_id := pathway_id g;
                 pathway_description := pathway_description g;
                 KO_count := S (KO_count g) |} :: t
      | Lt => {| pathway_id := fst k; pathway_description := snd k;
                 KO_count := 1 |} :: g :: t
      | Gt => g :: count_in k t
      end
  end.

(** [groupby(["pathway_id", "pathway_description"]).size().reset_index(name="KO_count")]:
    one row per key, in key order, with the number of members. *)
Definition group_sizes (keys : list (string * string)) : list summary_row :=
  fold_left (fun groups k => count_in k groups) keys [].

(** [pathway_df["pathway_id"].map(desc_map)] paired with the id; an id
    without an entry gets NaN, and [groupby] leaves such rows out. *)
Definition described (desc_map : gmap string string) (ids : list string)
    : list (string * string) :=
  List.flat_map (fun pw => match desc_map !! pw with
                           | Some d => [(pw, d)]
                           | None => []
                           end) ids.

(** Lines 142-146 *)
Definition summarize (desc_map : gmap string string) (ids : list string)
    : list summary_row :=
  group_sizes (described desc_map ids).

(** Text mode reads [\r\n] and [\r] as a line break. *)
Definition universal_newlines (content : string) : string :=
  replace (chr CR) (chr NL) (replace (chr CR +:+ chr NL) (chr NL) content).

(** Line 151: [[line.strip().lower() for line in f if line.strip()]] *)
Definition exclude_terms_of (content : string) : list string :=
  List.map (fun line => lower (strip line))
    (List.filter (fun line => negb (String.eqb (strip line) ""))
       (split_on NL (universal_newlines content))).

(** Lines 152-153 *)
Definition exclusion_filter (exclude_terms : list string)
    (summary_df : list summary_row) : outcome (list summary_row) :=
  let pattern := join "|" exclude_terms in
  match re_compile pattern with
  | Ok r =>
      Ok (List.filter
            (fun row => negb (re_search r (lower (pathway_description row))))
            summary_df)
  | Raise e => Raise e
  end.

(** Line 155: [drop_duplicates(subset='pathway_description', keep='first')] *)
Fixpoint drop_duplicates_from (seen : list string) (l : list summary_row)
    : list summary_row :=
  match l with
  | [] => []
  | r :: t =>
      if mem_string (pathway_description r) seen
      then drop_duplicates_from seen t
      else r :: drop_duplicates_from (pathway_description r :: seen) t
  end.

Definition drop_duplicates (l : list summary_row) : list summary_row :=
  drop_duplicates_from [] l.

(** Counts in non-increasing order. *)
Definition descending (l : list summary_row) : Prop :=
  StronglySorted (fun a b => KO_count b <= KO_count a) l.

(** The summary artifact. *)
Definition summary_frame (l : list summary_row) : frame :=
  {| columns := ["pathway_id"; "pathway_description"; "KO_count"];
     rows := List.map (fun r => [pathway_id r; pathway_description r;
                                 pretty (KO_count r)]) l |}.

(** ** The pipeline *)

Record args :=
  { input : string;
    exclude : option string;
    cache : string;
    plot : bool;
    output : string;
    plotfile : string }.

(** Lines 36 and 55: the two endpoints. *)
Definition link_url (ko : string) : string :=
  "https://rest.kegg.jp/link/pathway/ko:" +:+ ko.

Definition list_url (pw : string) : string :=
  "https://rest.kegg.jp/list/" +:+ pw.

(** The events of one pass through a loop body: the request and, behind
    it, the pause. *)
Definition request_block (url : string) : list event :=
  [EvGet url; EvSleep 200].

(** Between two requests of a trace there is a pause of 200 ms. *)
Definition delay_between_requests (evs : list event) : Prop :=
  forall pre u1 mid u2 post,
    evs = pre ++ EvGet u1 :: mid ++ EvGet u2 :: post ->
    In (EvSleep 200) mid.

Section Pipeline.

(** The KEGG REST service: the answer to the [n]-th request of the run
    (counted from 0) for a URL. *)
Variable kegg : nat -> string -> response.

(** [sort_values(by="KO_count", ascending=False)].  The call leaves
    [kind] at its default ['quicksort'], which pandas documents as not
    stable, so the order it gives to equal counts is not fixed by the
    script; the pipeline is stated over the sort it is run with. *)
Variable sort_values : list summary_row -> list summary_row.

(** [requests.get(url)] *)
Definition requests_get (url : string) : M response :=
  fun w => (Ok (kegg (requests_made (log w)) url),
            {| fs := fs w; log := log w ++ [EvGet url] |}).

(** Lines 38-44: the edges one response contributes for [ko]. *)
Definition link_records (ko : string) (r : response)
    : list (string * string) :=
  if (status_code r =? 200) && negb (String.eqb (strip (text r)) "")
  then
    List.flat_map
      (fun line =>
         match split_on TAB line with
         | [_; field] =>
             let pw := replace "path:" "" field in
             if startswith "map" pw then [(ko, pw)] else []
         | _ => []
         end)
      (split_on NL (strip (text r)))
  else [].

(** Lines 35-45 *)
Fixpoint resolve (ko_list : list string) (records : list (string * string))
    : M (list (string * string)) :=
  match ko_list with
  | [] => mret records
  | ko :: rest =>
      r ← requests_get (link_url ko);
      sleep 200;;
      resolve rest (records ++ link_records ko r)
  end.

(** Lines 28-50 *)
Definition fetch_ko_pathway_mapping (ko_list : list string)
    (cache_file : option string) : M frame :=
  let path := default "" cache_file in
  found ← (if truthy cache_file then path_exists path else mret false);
  if found : bool then
    content ← read_file path;
    lift (read_csv content)
  else
    records ← resolve ko_list [];
    let mapping_df := DataFrame records in
    (if truthy cache_file then write_file path (to_csv mapping_df)
     else mret tt);;
    mret mapping_df.

(** Lines 57-61: the description one response gives, the fallback text
    for a status other than 200 or a blank body; the subscript [[1]] of
    line 58 raises when the text has no tab. *)
Definition description_of (r : response) : outcome string :=
  if (status_code r =? 200) && negb (String.eqb (strip (text r)) "")
  then
    match split_on TAB (strip (text r)) with
    | _ :: desc :: _ => Ok desc
    | _ => Raise IndexError
    end
  else Ok "Unknown".

(** Lines 54-62 *)
Fixpoint describe (pathway_ids : list string) (desc_map : gmap string string)
    : M (gmap string string) :=
  match pathway_ids with
  | [] => mret desc_map
  | pw :: rest =>
      r ← requests_get (list_url pw);
      desc ← lift (description_of r);
      sleep 200;;
      describe rest (<[pw := desc]> desc_map)
  end.

(** Lines 52-63 *)
Definition fetch_pathway_descriptions (pathway_ids : list string)
    : M (gmap string string) :=
  describe pathway_ids ∅.

(** Lines 65-110.  Line 70 reads [counts[0]], which raises on an empty
    table; the drawing itself is recorded as the bars handed over. *)
Definition plot_circular_barplot (df : list summary_row)
    (output_plot : string) : M unit :=
  match df with
  | [] => mthrow IndexError
  | _ =>
      (if negb (String.eqb output_plot "")
       then emit (EvSavefig output_plot
                    (List.map (fun r => (pathway_description r, KO_count r)) df))
       else mret tt);;
      emit EvShow
  end.

(** Lines 149-153 *)
Definition filter_step (exclude : option string)
    (summary_df : list summary_row) : M (list summary_row) :=
  if truthy exclude then
    content ← read_file (default "" exclude);
    lift (exclusion_filter (exclude_terms_of content) summary_df)
  else mret summary_df.

(** Lines 155-156 *)
Definition rank (summary_df : list summary_row) : list summary_row :=
  sort_values (drop_duplicates summary_df).

(** Lines 129-165 *)
Definition main (a : args) : M unit :=
  content ← read_file (input a);
  df ← lift (read_input content);
  let ko_df := preprocess_input df in
  let ko_list := ko_list_of ko_df in
  pathway_df ← fetch_ko_pathway_mapping ko_list (Some (cache a));
  ids ← lift (column pathway_df "pathway_id");
  let unique_pathways := unique ids in
  pathway_desc_map ← fetch_pathway_descriptions unique_pathways;
  let summary_df := summarize pathway_desc_map ids in
  summary_df ← filter_step (exclude a) summary_df;
  let summary_df := rank summary_df in
  write_file (output a) (to_csv (summary_frame summary_df));;
  if plot a then plot_circular_barplot (firstn 20 summary_df) (plotfile a)
  else mret tt.

(** Lines 137-165: what [main] does once it holds the mapping. *)
Definition report (a : args) (pathway_df : frame) : M unit :=
  ids ← lift (column pathway_df "pathway_id");
  let unique_pathways := unique ids in
  pathway_desc_map ← fetch_pathway_descriptions unique_pathways;
  let summary_df := summarize pathway_desc_map ids in
  summary_df ← filter_step (exclude a) summary_df;
  let summary_df := rank summary_df in
  write_file (output a) (to_csv (summary_frame summary_df));;
  if plot a then plot_circular_barplot (firstn 20 summary_df) (plotfile a)
  else mret tt.

End Pipeline.

(** ** A sort that [sort_values] may be *)

(** Insertion in front of the first row whose count is not larger: a row
    goes before the rows of equal count. *)
Fixpoint insert_before_ties (r : summary_row) (l : list summary_row)
    : list summary_row :=
  match l with
  | [] => [r]
  | x :: t => if KO_count x <=? KO_count r then r :: x :: t
              else x :: insert_before_ties r t
  end.

(** Rows are inserted from the last to the first, so [stable_sort] keeps
    equal counts in their order. *)
Definition stable_sort (l : list summary_row) : list summary_row :=
  fold_right insert_before_ties [] l.

(** ** Concrete runs *)

Definition empty_world : world := {| fs := ∅; log := [] |}.

Definition unreachable : nat -> string -> response :=
  fun _ _ => {| status_code := 503; text := "" |}.

Definition line (fields : list string) : string :=
  join (chr TAB) fields +:+ chr NL.

(** A service that answers every description request with a line that has
    no tab in it. *)
Definition malformed : nat -> string -> response :=
  fun _ _ => {| status_code := 200; text := "map00010" |}.

(** A service that answers with status 200 and a blank body. *)
Definition blank : nat -> string -> response :=
  fun _ _ => {| status_code := 200; text := "  " +:+ chr NL |}.

(** A service that knows K00001 and map00010 and nothing else. *)
Definition glycolysis_service : nat -> string -> response :=
  fun _ url =>
    if String.eqb url (link_url "K00001")
    then {| status_code := 200;
            text := line ["ko:K00001"; "path:map00010"]
                    +:+ line ["ko:K00001"; "path:ko00010"] |}
    else if String.eqb url (list_url "map00010")
    then {| status_code := 200;
            text := line ["map00010"; "Glycolysis / Gluconeogenesis"] |}
    else {| status_code := 404; text := "" |}.

(** One gene with one code, and an exclusion file that names the only
    pathway the code belongs to. *)
Definition excluded_world : world :=
  {| fs := {[ "genes.tsv" := line ["gene1"; "ko:K00001"];
              "exclude.txt" := "glycolysis" +:+ chr NL ]};
     log := [] |}.

Definition excluded_args (with_plot : bool) : args :=
  {| input := "genes.tsv";
     exclude := Some "exclude.txt";
     cache := "kegg_ko_pathway_map.tsv";
     plot := with_plot;
     output := "kegg_pathway_summary.tsv";
     plotfile := "top20_pathways_circular_barplot.svg" |}.

(** Four summary rows with the counts 3, 5, 5, 1. *)
Definition tied_table : list summary_row :=
  [ {| pathway_id := "map00010"; pathway_description := "Glycolysis"; KO_count := 3 |};
    {| pathway_id := "map00020"; pathway_description := "Citrate cycle"; KO_count := 5 |};
    {| pathway_id := "map00030"; pathway_description := "Pentose phosphate"; KO_count := 5 |};
    {| pathway_id := "map00040"; pathway_description := "Pentose interconversions"; KO_count := 1 |} ].

(** A cache file with edges of a code, K99999, that the input does not
    hold. *)
Definition wider_cache : string :=
  line ["ko"; "pathway_id"] +:+ line ["K00001"; "map00010"]
  +:+ line ["K99999"; "map00010"] +:+ line ["K99999"; "map00020"].

Definition wider_cache_world : world :=
  {| fs := {[ "genes.tsv" := line ["gene1"; "ko:K00001"];
              "kegg_ko_pathway_map.tsv" := wider_cache ]};
     log := [] |}.

Definition plain_args : args :=
  {| input := "genes.tsv";
     exclude := None;
     cache := "kegg_ko_pathway_map.tsv";
     plot := false;
     output := "kegg_pathway_summary.tsv";
     plotfile := "top20_pathways_circular_barplot.svg" |}.

Definition citrate_row : summary_row :=
  {| pathway_id := "map00020";
     pathway_description := "Citrate cycle (TCA cycle)";
     KO_count := 4 |}.

(** Two pathway ids whose lookups both fell back to the same text. *)
Definition unknown_descriptions : gmap string string :=
  {[ "map00010" := "Unknown"; "map00020" := "Unknown" ]}.



(** ** Notions the further properties are stated with *)

(** The letter K and five decimal digits. *)
Definition is_ko_code (k : string) : bool :=
  match k with
  | String c (String d1 (String d2 (String d3 (String d4 (String d5 ""))))) =>
      Ascii.eqb "K"%char c && is_digit d1 && is_digit d2 && is_digit d3
      && is_digit d4 && is_digit d5
  | _ => false
  end.

(** A code as a field lists it, with or without the namespace prefix. *)
Definition listed (piece : bool * string) : string :=
  if fst piece then "ko:" +:+ snd piece else snd piece.

(** The number of requests a trace holds for one URL. *)
Definition requests_to (url : string) (evs : list event) : nat :=
  List.length
    (List.filter (fun e => match e with
                           | EvGet u => String.eqb u url
                           | _ => false
                           end) evs).

(** Three rows, two genes sharing a code. *)
Definition shared_code_records : list id_record :=
  [ {| rec_gene := "gene1"; ko := "K00001" |};
    {| rec_gene := "gene2"; ko := "K00002" |};
    {| rec_gene := "gene3"; ko := "K00001" |} ].

(** A text without white space. *)
Fixpoint no_space (s : string) : bool :=
  match s with
  | "" => true
  | String c s' => negb (py_isspace c) && no_space s'
  end.

(** A text that is not empty and has no white space, as the identifiers
    of the service are. *)
Definition solid (s : string) : bool :=
  negb (String.eqb s "") && no_space s.

(** A body of lines, one per record, the fields separated by tabs. *)
Definition answer_lines (records : list (list string)) : string :=
  String.concat "" (List.map line records).

(** What the link endpoint sends for a code: one line per pathway, the
    code in the first field, the pathway id behind [path:] in the
    second. *)
Definition link_answer (edges : list (string * string)) : string :=
  answer_lines (List.map (fun e => [fst e; "path:" +:+ snd e]) edges).

(** The URLs a trace asks for, in the order of the requests. *)
Definition requested (evs : list event) : list string :=
  List.flat_map (fun e => match e with
                          | EvGet u => [u]
                          | _ => []
                          end) evs.

(** A trace without a request in it. *)
Definition quiet (evs : list event) : Prop := requests_made evs = 0.

(** Line 29: [cache_file and os.path.exists(cache_file)] for the cache
    location of a run. *)
Definition cache_found (a : args) (w : world) : bool :=
  truthy (Some (cache a)) && bool_decide (is_Some (fs w !! cache a)).

(** The summary file of a run that found nothing to report: the header
    alone. *)
Definition summary_header : string :=
  line ["pathway_id"; "pathway_description"; "KO_count"].

(** What the chart step logs for a table and a plot file. *)
Definition chart_events (df : list summary_row) (output_plot : string)
    : list event :=
  (if String.eqb output_plot "" then []
   else [EvSavefig output_plot
           (List.map (fun r => (pathway_description r, KO_count r)) df)])
  ++ [EvShow].

(** The input names a gene with K00001; the exclusion file named on the
    command line is not there. *)
Definition no_exclusion_file_world : world :=
  {| fs := {[ "genes.tsv" := line ["gene1"; "ko:K00001"] ]}; log := [] |}.

Definition plot_args : args :=
  {| input := "genes.tsv";
     exclude := None;
     cache := "kegg_ko_pathway_map.tsv";
     plot := true;
     output := "kegg_pathway_summary.tsv";
     plotfile := "top20_pathways_circular_barplot.svg" |}.

(** The text of an input file: one line per gene, holding the gene, a
    tab and the codes listed for it. *)
Definition input_text (genes : list (string * list (bool * string))) : string :=
  answer_lines
    (List.map (fun r => [fst r; join "," (List.map listed (snd r))]) genes).

(** The characters a listed code is made of. *)
Definition code_char (c : ascii) : bool :=
  is_digit c || existsb (Ascii.eqb c) ["K"; "k"; "o"; ":"; ","]%char.



(** The code column of a frame holds text, so that [.str] on line 20
    applies to it: the frame has no row, or some field of the column is
    not missing.  A column of missing values alone has the type float64,
    and line 20 raises AttributeError on it. *)
Definition text_column (df : list raw_row) : bool :=
  match df with
  | [] => true
  | _ => existsb (fun r => bool_decide (is_Some (ko_raw r))) df
  end.

(** The code fields of a frame are ASCII text. *)
Definition ascii_frame (df : list raw_row) : bool :=
  forallb (fun r => match ko_raw r with
                    | Some raw => ascii_text raw
                    | None => true
                    end) df.

Fixpoint drop_chars (n : nat) (s : string) : string :=
  match n, s with
  | S n', String _ s' => drop_chars n' s'
  | _, _ => s
  end.

(** After the specification's words, "strip the namespace prefix from
    each code": a piece that starts with [ko:] loses these three
    characters. *)
Definition strip_namespace (piece : string) : string :=
  if startswith "ko:" piece then drop_chars 3 piece else piece.

(** A frame given by its rows: the gene and, unless the code field is
    missing, the pieces the field lists between commas. *)
Definition frame_of_pieces (rows : list (string * option (list string)))
    : list raw_row :=
  List.map (fun r => {| gene := fst r;
                        ko_raw := option_map (join ",") (snd r) |}) rows.

(** The normalizer after the specification's words, with the letter K of
    line 24 for its capital letter: each piece of a field that is not
    missing, the namespace prefix stripped, gives a record of the row's
    gene when it is the letter K and five digits, and nothing
    otherwise. *)
Definition normalized (rows : list (string * option (list string)))
    : list id_record :=
  List.flat_map
    (fun r =>
       match snd r with
       | None => []
       | Some pieces =>
           List.flat_map
             (fun piece =>
                if is_ko_code (strip_namespace piece)
                then [{| rec_gene := fst r; ko := strip_namespace piece |}]
                else [])
             pieces
       end) rows.

(** A piece of ASCII text without comma or line break in which [ko:]
    stands at the front or nowhere. *)
Definition plain_piece (piece : string) : bool :=
  ascii_text piece && negb (has_char ","%char piece)
  && negb (has_char NL piece)
  && negb (contains "ko:" (strip_namespace piece)).

(** Three rows: codes with and without the prefix, a code of another
    letter and one too short; a missing field; the placeholder. *)
Definition mixed_rows : list (string * option (list string)) :=
  [ ("gene1", Some ["ko:K00001"; "K00002"; "M00001"; "K123"]);
    ("gene2", None);
    ("gene3", Some ["-"]) ].

(** * Properties *)

(** ** Strings *)

Lemma app_empty_l (s : string) : "" +:+ s = s.
Proof. reflexivity. Qed.

Lemma app_String c (s1 s2 : string) : String c s1 +:+ s2 = String c (s1 +:+ s2).
Proof. reflexivity. Qed.

Lemma app_empty_r (s : string) : s +:+ "" = s.
Proof. induction s as [|c s IH]; [easy|]. now rewrite app_String, IH. Qed.

Lemma app_assoc_s (a b c : string) : (a +:+ b) +:+ c = a +:+ (b +:+ c).
Proof.
  induction a as [|x a IH]; [easy|]. now rewrite !app_String, IH.
Qed.

(** ** Matching *)

Lemma matches_RNone s : matches RNone s = false.
Proof. induction s; simpl; auto. Qed.

Lemma matches_RAlt r1 r2 s :
  matches (RAlt r1 r2) s = matches r1 s || matches r2 s.
Proof. revert r1 r2; induction s; intros; simpl; auto. Qed.

Lemma matches_cat_none r s : matches (RCat RNone r) s = false.
Proof. induction s; simpl; auto. Qed.

Lemma matches_cat_eps r s : matches (RCat REps r) s = matches r s.
Proof.
  destruct s as [|c s]; simpl; auto.
  now rewrite matches_RAlt, matches_cat_none.
Qed.

Lemma matches_cls_cat k r c s :
  matches (RCat (RCls k) r) (String c s) = cclass_mem k c && matches r s.
Proof.
  simpl. destruct (cclass_mem k c); simpl.
  - apply matches_cat_eps.
  - apply matches_cat_none.
Qed.

Lemma matches_REps s : matches REps s = true <-> s = "".
Proof.
  destruct s; simpl; split; intros H; try easy.
  now rewrite matches_RNone in H.
Qed.

Lemma matches_RCls k s :
  matches (RCls k) s = true <-> exists c, s = chr c /\ cclass_mem k c = true.
Proof.
  split.
  - destruct s as [|c s]; simpl; [easy|].
    destruct (cclass_mem k c) eqn:E.
    + intros H%matches_REps. subst. now exists c.
    + now rewrite matches_RNone.
  - intros (c & -> & H). simpl. now rewrite H.
Qed.

(** A concatenation matches exactly the strings that split into a match of
    each part. *)
Lemma matches_RCat r1 r2 s :
  matches (RCat r1 r2) s = true <->
  exists s1 s2, s = s1 +:+ s2 /\ matches r1 s1 = true /\ matches r2 s2 = true.
Proof.
  revert r1; induction s as [|c s IH]; intros r1.
  - simpl. rewrite andb_true_iff. split.
    + intros [H1 H2]. now exists "", "".
    + intros (s1 & s2 & E & H1 & H2).
      destruct s1; [|discriminate]. destruct s2; [|discriminate]. auto.
  - simpl. destruct (nullable r1) eqn:N.
    + rewrite matches_RAlt, orb_true_iff, IH. split.
      * intros [(s1 & s2 & -> & H1 & H2) | H].
        -- now exists (String c s1), s2.
        -- exists "", (String c s). simpl. auto.
      * intros (s1 & s2 & E & H1 & H2). destruct s1 as [|c1 s1].
        -- right. rewrite app_empty_l in E. subst s2. exact H2.
        -- left. rewrite app_String in E. injection E as -> ->.
           now exists s1, s2.
    + rewrite IH. split.
      * intros (s1 & s2 & -> & H1 & H2). now exists (String c s1), s2.
      * intros (s1 & s2 & E & H1 & H2). destruct s1 as [|c1 s1].
        -- simpl in H1. congruence.
        -- rewrite app_String in E. injection E as -> ->. now exists s1, s2.
Qed.

Lemma matches_any_star s : matches (RStar (RCls CAll)) s = true.
Proof.
  induction s as [|c s IH]; simpl; auto.
  now rewrite matches_cat_eps.
Qed.

(** [re.search] finds a match of the pattern somewhere in the string. *)
Lemma re_search_spec r s :
  re_search r s = true <->
  exists a m b, s = a +:+ m +:+ b /\ matches r m = true.
Proof.
  unfold re_search. rewrite matches_RCat. split.
  - intros (a & rest & -> & _ & (m & b & -> & Hm & _)%matches_RCat).
    now exists a, m, b.
  - intros (a & m & b & -> & Hm). exists a, (m +:+ b).
    split; [easy|]. split; [apply matches_any_star|].
    apply matches_RCat. exists m, b. auto using matches_any_star.
Qed.

(** The anchored match accepts a match of the pattern, or one followed by a
    final line break. *)
Lemma re_match_anchored_spec r s :
  re_match_anchored r s = true <->
  matches r s = true \/ exists s', s = s' +:+ chr NL /\ matches r s' = true.
Proof.
  unfold re_match_anchored. rewrite matches_RAlt, orb_true_iff, matches_RCat.
  split; (intros [H|H]; [now left|right]).
  - destruct H as (s1 & s2 & -> & H1 & (c & -> & Hc)%matches_RCls).
    cbn [cclass_mem] in Hc. apply Ascii.eqb_eq in Hc. subst c. now exists s1.
  - destruct H as (s' & -> & H). exists s', (chr NL). repeat split; auto.
Qed.

Lemma digit_tail_letter s :
  matches (rseq [RCls CDigit; RCls CDigit; RCls CDigit; RCls CDigit; RCls CDigit]) s = true ->
  forall c, is_upper c = true ->
  matches letter_pattern (String c s) = true.
Proof.
  intros H c Hc. unfold letter_pattern. cbn [rseq].
  rewrite matches_cls_cat. cbn [cclass_mem]. now rewrite Hc.
Qed.

(** What [K\d{5}] matches is matched by [[A-Z]\d{5}] too. *)
Lemma ko_pattern_letter s :
  matches ko_pattern s = true -> matches letter_pattern s = true.
Proof.
  unfold ko_pattern. cbn [rseq]. destruct s as [|c s]; [easy|].
  rewrite matches_cls_cat. intros [Hc Hs]%andb_true_iff.
  cbn [cclass_mem] in Hc. apply Ascii.eqb_eq in Hc. subst c.
  now apply digit_tail_letter.
Qed.

Lemma ko_anchored_letter s :
  re_match_anchored ko_pattern s = true ->
  re_match_anchored letter_pattern s = true.
Proof.
  rewrite !re_match_anchored_spec.
  intros [H | (s' & -> & H)]; [left | right; exists s'];
    auto using ko_pattern_letter.
Qed.

(** ** Normalization *)

Lemma in_preprocess_input df g k :
  In {| rec_gene := g; ko := k |} (preprocess_input df) <->
  exists raw piece,
    In {| gene := g; ko_raw := Some raw |} df /\ raw <> "-" /\
    In piece (split_on ","%char raw) /\
    k = replace "ko:" "" piece /\
    re_match_anchored ko_pattern k = true.
Proof.
  unfold preprocess_input. rewrite filter_In, in_map_iff. split.
  - intros [(r & E & Hr) Hv]. apply in_flat_map in Hr as (row & Hrow & Hex).
    apply filter_In in Hrow as [Hin Hp].
    destruct row as [g0 [raw|]]; unfold present, explode in *; simpl in *;
      [|easy].
    apply in_map_iff in Hex as (piece & <- & Hpiece).
    unfold strip_prefix in E; simpl in E. injection E as -> <-.
    exists raw, piece. repeat split; auto.
    intros ->. discriminate.
  - intros (raw & piece & Hin & Hraw & Hpiece & -> & Hm). split; [|exact Hm].
    exists {| rec_gene := g; ko := piece |}. split; [reflexivity|].
    apply in_flat_map. exists {| gene := g; ko_raw := Some raw |}. split.
    + apply filter_In. split; [exact Hin|]. unfold present; simpl.
      apply negb_true_iff, String.eqb_neq, Hraw.
    + unfold explode; simpl. apply in_map_iff. now exists piece.
Qed.

(** C2, as the specification words it, fails: the code [M00001] matches
    [^[A-Z]\d{5}$] once the prefix is removed, its row holds a code field
    that is neither missing nor the placeholder, and normalization drops
    it all the same, because line 24 asks for the letter [K]. *)
Lemma preprocess_input_drops_letter_code :
  let row := {| gene := "gene1"; ko_raw := Some "ko:M00001" |} in
  present row = true /\
  re_match_anchored letter_pattern (replace "ko:" "" "ko:M00001") = true /\
  preprocess_input [row] = [].
Proof. repeat split; vm_compute; reflexivity. Qed.

(** ** Commands *)

Lemma world_eta w : {| fs := fs w; log := log w |} = w.
Proof. now destruct w. Qed.

Lemma bind_run {A B} (m : M A) (f : A -> M B) w :
  (m ≫= f) w = match m w with
               | (Ok a, w') => f a w'
               | (Raise e, w') => (Raise e, w')
               end.
Proof. reflexivity. Qed.

Lemma blocks_delay urls tail :
  (tail = [] \/ exists u, tail = [EvGet u]) ->
  delay_between_requests (flat_map request_block urls ++ tail).
Proof.
  intros Htail. induction urls as [|u urls IH]; intros pre u1 mid u2 post E.
  - simpl in E. destruct Htail as [-> | [u ->]].
    + now destruct pre.
    + destruct pre as [|e [|e' pre]]; simpl in E; try discriminate.
      injection E as _ E. now destruct mid.
  - simpl in E. destruct pre as [|e pre].
    + simpl in E. injection E as _ E.
      destruct mid as [|e mid]; simpl in E; [discriminate|].
      injection E as <- _. now left.
    + simpl in E. injection E as _ E. destruct pre as [|e' pre].
      * discriminate.
      * simpl in E. injection E as _ E. now apply (IH pre u1 mid u2 post).
Qed.

Section Requests.

Variable kegg : nat -> string -> response.

Lemma resolve_run ko_list : forall records w,
  exists res,
    resolve kegg ko_list records w
    = (Ok res, {| fs := fs w;
                  log := log w ++ flat_map request_block
                                    (List.map link_url ko_list) |}).
Proof.
  induction ko_list as [|k rest IH]; intros records w.
  - exists records. simpl. now rewrite app_nil_r, world_eta.
  - cbn [resolve]. rewrite bind_run. cbn [requests_get].
    rewrite bind_run. cbn [sleep emit fs log].
    destruct (IH (records ++ link_records k
                    (kegg (requests_made (log w)) (link_url k)))
                 {| fs := fs w;
                    log := (log w ++ [EvGet (link_url k)]) ++ [EvSleep 200] |})
      as [res Hres].
    exists res. rewrite Hres. cbn [fs log].
    do 2 f_equal. cbn [List.map flat_map request_block].
    now rewrite <- !app_assoc.
Qed.

(** With a cache file in place the mapping is read from it: nothing is
    requested, nothing is written, the requested codes play no part. *)
Lemma fetch_cached ko_list path content w :
  path <> "" -> fs w !! path = Some content ->
  fetch_ko_pathway_mapping kegg ko_list (Some path) w = (read_csv content, w).
Proof.
  intros Hpath Hfile. unfold fetch_ko_pathway_mapping.
  assert (truthy (Some path) = true) as ->.
  { simpl. now apply negb_true_iff, String.eqb_neq. }
  rewrite bind_run. simpl default. unfold path_exists.
  rewrite bool_decide_eq_true_2 by (exists content; exact Hfile).
  rewrite bind_run. unfold read_file.
  replace (fs w !! path) with (Some content). reflexivity.
Qed.

(** A live pass requests every code once, with the pause behind each
    request, and writes the cache when a location is given. *)
Lemma fetch_live_log ko_list cache_file w :
  (truthy cache_file = false \/ fs w !! default "" cache_file = None) ->
  log (snd (fetch_ko_pathway_mapping kegg ko_list cache_file w))
  = log w ++ flat_map request_block (List.map link_url ko_list).
Proof.
  intros Hlive. unfold fetch_ko_pathway_mapping. rewrite bind_run.
  assert ((if truthy cache_file
           then path_exists (default "" cache_file) else mret false) w
          = (Ok false, w)) as ->.
  { destruct (truthy cache_file); [|reflexivity].
    destruct Hlive as [|Hnone]; [discriminate|].
    unfold path_exists. rewrite bool_decide_eq_false_2; [reflexivity|].
    intros [x Hx]. congruence. }
  rewrite bind_run.
  destruct (resolve_run ko_list [] w) as [res ->].
  rewrite bind_run. destruct (truthy cache_file); [|reflexivity].
  unfold write_file. cbn [fs log].
  destruct (String.eqb (default "" cache_file) ""); reflexivity.
Qed.

Lemma describe_cons pw rest desc_map w :
  describe kegg (pw :: rest) desc_map w
  = match description_of (kegg (requests_made (log w)) (list_url pw)) with
    | Ok d =>
        describe kegg rest (<[pw := d]> desc_map)
          {| fs := fs w; log := log w ++ request_block (list_url pw) |}
    | Raise e =>
        (Raise e, {| fs := fs w; log := log w ++ [EvGet (list_url pw)] |})
    end.
Proof.
  cbn [describe]. rewrite bind_run. cbn [requests_get].
  rewrite bind_run. unfold lift.
  destruct (description_of _) as [d|e]; [|reflexivity].
  rewrite bind_run. cbn [sleep emit fs log]. now rewrite <- app_assoc.
Qed.

(** The description lookup raises nothing but [IndexError]. *)
Lemma description_of_cases r :
  (exists d, description_of r = Ok d) \/ description_of r = Raise IndexError.
Proof.
  unfold description_of.
  destruct ((status_code r =? 200) && _); [|left; eauto].
  destruct (split_on TAB (strip (text r))) as [|f1 [|f2 fs']].
  - now right.
  - now right.
  - left; eauto.
Qed.

(** The enricher asks for each id in turn, pausing after each answer it
    could read; an answer it cannot read ends the loop with the request
    as the last event. *)
Lemma describe_run ids : forall desc_map w,
  fs (snd (describe kegg ids desc_map w)) = fs w /\
  exists n tail,
    log (snd (describe kegg ids desc_map w))
    = log w ++ flat_map request_block (List.map list_url (firstn n ids)) ++ tail /\
    ((exists m, fst (describe kegg ids desc_map w) = Ok m /\
                n = List.length ids /\ tail = []) \/
     (fst (describe kegg ids desc_map w) = Raise IndexError /\
      exists pw, nth_error ids n = Some pw /\ tail = [EvGet (list_url pw)])).
Proof.
  induction ids as [|pw rest IH]; intros desc_map w.
  - split; [reflexivity|]. exists 0, []. simpl. rewrite app_nil_r.
    split; [reflexivity|]. left. eauto.
  - rewrite describe_cons.
    destruct (description_of_cases
                (kegg (requests_made (log w)) (list_url pw))) as [[d ->] | ->].
    + specialize (IH (<[pw := d]> desc_map)
                     {| fs := fs w;
                        log := log w ++ request_block (list_url pw) |}).
      destruct IH as [Hfs (n & tail & Hlog & Hres)]. cbn [fs log] in *.
      split; [exact Hfs|]. exists (S n), tail. split.
      * rewrite Hlog. cbn [firstn List.map flat_map].
        now rewrite <- !app_assoc.
      * destruct Hres as [(m & Hm & -> & ->) | (He & q & Hq & ->)].
        -- left. exists m. auto.
        -- right. split; [exact He|]. exists q. auto.
    + cbn [fst snd fs log]. split; [reflexivity|]. exists 0, [EvGet (list_url pw)].
      split; [reflexivity|]. right. split; [reflexivity|]. exists pw. auto.
Qed.

(** Ids that are not looked up keep their entry. *)
Lemma describe_other ids : forall desc_map w m k,
  fst (describe kegg ids desc_map w) = Ok m -> ~ In k ids ->
  m !! k = desc_map !! k.
Proof.
  induction ids as [|pw rest IH]; intros desc_map w m k.
  - simpl. intros [= <-] _. reflexivity.
  - rewrite describe_cons.
    destruct (description_of _) as [d|e]; [|discriminate].
    intros Hm Hk. rewrite (IH _ _ _ _ Hm) by (intros ?; apply Hk; now right).
    apply lookup_insert_ne. intros ->. apply Hk. now left.
Qed.

(** When the enricher returns, every id it was given has an entry, and
    the entry is what line 57-61 make of one of the answers for that id. *)
Lemma describe_total ids : forall desc_map w m pw,
  fst (describe kegg ids desc_map w) = Ok m -> In pw ids ->
  exists n d, m !! pw = Some d /\
              description_of (kegg n (list_url pw)) = Ok d.
Proof.
  induction ids as [|pw0 rest IH]; intros desc_map w m pw; [easy|].
  rewrite describe_cons.
  destruct (description_of _) as [d|e] eqn:Hd; [|discriminate].
  intros Hm Hin. destruct (in_dec string_dec pw rest) as [Hr|Hr].
  - eapply IH; eauto.
  - destruct Hin as [->|]; [|contradiction].
    exists (requests_made (log w)), d. split; [|exact Hd].
    rewrite (describe_other _ _ _ _ _ Hm Hr). apply lookup_insert_eq.
Qed.

(** When every answer can be read, the enricher returns. *)
Lemma describe_returns ids : forall desc_map w,
  (forall n pw, In pw ids -> exists d, description_of (kegg n (list_url pw)) = Ok d) ->
  exists m, fst (describe kegg ids desc_map w) = Ok m.
Proof.
  induction ids as [|pw rest IH]; intros desc_map w H.
  - now exists desc_map.
  - rewrite describe_cons.
    destruct (H (requests_made (log w)) pw) as [d ->]; [now left|].
    apply IH. intros n q Hq. apply H. now right.
Qed.

(** A lookup that failed, by its status or by a blank body, gives the
    fallback. *)
Lemma description_of_failed r :
  status_code r <> 200 \/ strip (text r) = "" ->
  description_of r = Ok "Unknown".
Proof.
  unfold description_of. intros [H|H].
  - apply Nat.eqb_neq in H. now rewrite H.
  - rewrite H. now rewrite andb_false_r.
Qed.

(** A live pass returns the frame of the records it gathered and, given a
    cache location, leaves that frame there as text. *)
Lemma fetch_live_result ko_list path w :
  path <> "" -> fs w !! path = None ->
  exists records,
    fst (fetch_ko_pathway_mapping kegg ko_list (Some path) w)
    = Ok (DataFrame records) /\
    fs (snd (fetch_ko_pathway_mapping kegg ko_list (Some path) w)) !! path
    = Some (to_csv (DataFrame records)).
Proof.
  intros Hpath Hnone. unfold fetch_ko_pathway_mapping.
  assert (truthy (Some path) = true) as ->.
  { simpl. now apply negb_true_iff, String.eqb_neq. }
  rewrite bind_run. simpl default. unfold path_exists.
  rewrite bool_decide_eq_false_2 by (intros [x Hx]; congruence).
  rewrite bind_run. destruct (resolve_run ko_list [] w) as [records ->].
  exists records. rewrite bind_run. unfold write_file.
  change (default "" (Some path)) with path.
  apply String.eqb_neq in Hpath. rewrite Hpath. cbn [fst snd fs].
  split; [reflexivity|]. apply lookup_insert_eq.
Qed.

End Requests.

(** C8: in both loops the pause of 200 ms stands directly behind every
    request, whatever the answer was.  The log of a resolution pass grows
    by one request-and-pause block per requested code (by nothing when the
    cache is read); the log of the enricher grows by one block per pathway
    id, and if an answer makes the loop raise, that request is the last
    event.  In either log a pause lies between any two requests. *)
Theorem requests_are_spaced_by_the_sleep (kegg : nat -> string -> response) :
  (forall ko_list cache_file w,
      exists urls,
        log (snd (fetch_ko_pathway_mapping kegg ko_list cache_file w))
        = log w ++ flat_map request_block urls /\
        (truthy cache_file = false \/ fs w !! default "" cache_file = None ->
         urls = List.map link_url ko_list) /\
        delay_between_requests (flat_map request_block urls)) /\
  (forall pathway_ids w,
      exists evs,
        log (snd (fetch_pathway_descriptions kegg pathway_ids w)) = log w ++ evs /\
        (forall m, fst (fetch_pathway_descriptions kegg pathway_ids w) = Ok m ->
                   evs = flat_map request_block (List.map list_url pathway_ids)) /\
        delay_between_requests evs).
Proof.
  split.
  - intros ko_list cache_file w.
    assert (forall urls, delay_between_requests (flat_map request_block urls)) as D.
    { intros urls. rewrite <- (app_nil_r (flat_map _ _)).
      apply blocks_delay. now left. }
    destruct (truthy cache_file) eqn:T;
      [destruct (fs w !! default "" cache_file) as [content|] eqn:F|].
    + exists []. destruct cache_file as [path|]; [|discriminate].
      rewrite (fetch_cached kegg ko_list path content w); auto.
      * simpl. rewrite app_nil_r. split; [reflexivity|]. split.
        -- intros [|]; discriminate.
        -- apply (D []).
      * simpl in T. intros ->. discriminate.
    + exists (List.map link_url ko_list). repeat split; auto.
      apply fetch_live_log. now right.
    + exists (List.map link_url ko_list). repeat split; auto.
      apply fetch_live_log. now left.
  - intros ids w. unfold fetch_pathway_descriptions.
    destruct (describe_run kegg ids ∅ w) as [_ (n & tail & Hlog & Hres)].
    exists (flat_map request_block (List.map list_url (firstn n ids)) ++ tail).
    split; [exact Hlog|]. split.
    + intros m Hm. destruct Hres as [(m' & _ & -> & ->) | (He & _)].
      * now rewrite firstn_all, app_nil_r.
      * congruence.
    + apply blocks_delay.
      destruct Hres as [(_ & _ & _ & ->) | (_ & pw & _ & ->)]; eauto.
Qed.

(** C4 at its failing input: an answer with status 200 whose text has no
    tab makes the subscript of line 58 raise, so no mapping is returned at
    all, where the claim has the id mapped to [Unknown].  A status other
    than 200 and a blank body do give [Unknown]. *)
Theorem malformed_description_line_raises :
  fst (fetch_pathway_descriptions malformed ["map00010"] empty_world)
  = Raise IndexError /\
  fst (fetch_pathway_descriptions unreachable ["map00010"] empty_world)
  = Ok {[ "map00010" := "Unknown" ]} /\
  fst (fetch_pathway_descriptions blank ["map00010"] empty_world)
  = Ok {[ "map00010" := "Unknown" ]}.
Proof. repeat split; vm_compute; reflexivity. Qed.

(** C6 at its failing input: a live pass that finds no edge (here the
    service is out of reach) builds a frame without columns, writes a lone
    line break to the cache, and the next run, finding the file, has
    [read_csv] raise [EmptyDataError] instead of giving back the empty
    edge set. *)
Theorem empty_edge_set_does_not_round_trip :
  let first_run :=
    fetch_ko_pathway_mapping unreachable ["K00001"]
      (Some "kegg_ko_pathway_map.tsv") empty_world in
  fst first_run = Ok (DataFrame []) /\
  fs (snd first_run) !! "kegg_ko_pathway_map.tsv" = Some (chr NL) /\
  fst (fetch_ko_pathway_mapping unreachable ["K00001"]
         (Some "kegg_ko_pathway_map.tsv") (snd first_run))
  = Raise EmptyDataError.
Proof. repeat split; vm_compute; reflexivity. Qed.

(** The run that leaves such a cache behind ends itself on line 137: the
    frame without columns has no [pathway_id]. *)
Lemma run_without_edges_raises_key_error
    (sort_values : list summary_row -> list summary_row) :
  fst (main unreachable sort_values (excluded_args false) excluded_world)
  = Raise (KeyError "pathway_id") /\
  fs (snd (main unreachable sort_values (excluded_args false) excluded_world))
     !! "kegg_ko_pathway_map.tsv"
  = Some (chr NL).
Proof. split; vm_compute; reflexivity. Qed.

(** C7 at its failing input: the exclusion list removes the only group, the
    empty summary is written with its header alone, and the chart step,
    reading [counts[0]] of an empty table, raises [IndexError]; without
    [--plot] the same run ends normally. *)
Theorem empty_summary_with_plot_raises
    (sort_values : list summary_row -> list summary_row) :
  (forall l, Permutation l (sort_values l)) ->
  fst (main glycolysis_service sort_values (excluded_args true) excluded_world)
  = Raise IndexError /\
  fs (snd (main glycolysis_service sort_values (excluded_args true) excluded_world))
     !! "kegg_pathway_summary.tsv"
  = Some (line ["pathway_id"; "pathway_description"; "KO_count"]) /\
  fst (main glycolysis_service sort_values (excluded_args false) excluded_world)
  = Ok tt.
Proof.
  intros Hperm.
  assert (sort_values [] = []) as Hnil.
  { apply Permutation_nil, Hperm. }
  repeat split; vm_compute; rewrite Hnil; reflexivity.
Qed.

(** ** Sorting by count *)

Lemma insert_before_ties_perm r l : Permutation (r :: l) (insert_before_ties r l).
Proof.
  induction l as [|x t IH]; simpl; [reflexivity|].
  destruct (KO_count x <=? KO_count r); [reflexivity|].
  rewrite perm_swap. now constructor.
Qed.

Lemma stable_sort_perm l : Permutation l (stable_sort l).
Proof.
  induction l as [|r t IH]; simpl; [reflexivity|].
  rewrite <- insert_before_ties_perm. now constructor.
Qed.

Lemma insert_before_ties_desc r l :
  descending l -> descending (insert_before_ties r l).
Proof.
  unfold descending. induction 1 as [|x t Hs IH Hx]; simpl.
  - repeat constructor.
  - destruct (KO_count x <=? KO_count r) eqn:E.
    + apply Nat.leb_le in E. constructor; [now constructor|].
      constructor; [exact E|].
      eapply List.Forall_impl; [|exact Hx]. simpl. intros; lia.
    + apply Nat.leb_gt in E. constructor; [exact IH|].
      eapply Permutation_Forall; [apply insert_before_ties_perm|].
      constructor; [lia | exact Hx].
Qed.

Lemma stable_sort_desc l : descending (stable_sort l).
Proof.
  induction l as [|r t IH]; simpl; [constructor|].
  now apply insert_before_ties_desc.
Qed.

(** The run of C7 under a sort that keeps ties. *)
Lemma empty_summary_with_plot_raises_witness :
  fst (main glycolysis_service stable_sort (excluded_args true) excluded_world)
  = Raise IndexError /\
  fst (main glycolysis_service stable_sort (excluded_args false) excluded_world)
  = Ok tt.
Proof.
  destruct (empty_summary_with_plot_raises stable_sort stable_sort_perm)
    as (H1 & _ & H2).
  split; [exact H1 | exact H2].
Defined.

(** ** The order of the grouping keys *)

Lemma string_compare_refl s : String.compare s s = Eq.
Proof.
  induction s as [|c s IH]; simpl; [reflexivity|].
  unfold Ascii.compare. now rewrite N.compare_refl.
Qed.

Lemma string_compare_lt_trans a : forall b c,
  String.compare a b = Lt -> String.compare b c = Lt -> String.compare a c = Lt.
Proof.
  induction a as [|x a IH]; intros [|y b] [|z c]; simpl; try easy.
  unfold Ascii.compare.
  destruct (N.compare (N_of_ascii x) (N_of_ascii y)) eqn:E1; try easy;
    destruct (N.compare (N_of_ascii y) (N_of_ascii z)) eqn:E2; try easy;
    intros H1 H2.
  - apply N.compare_eq_iff in E1, E2. rewrite E1, E2, N.compare_refl. eauto.
  - apply N.compare_eq_iff in E1. now rewrite E1, E2.
  - apply N.compare_eq_iff in E2. now rewrite <- E2, E1.
  - apply N.compare_lt_iff in E1, E2.
    assert (N.compare (N_of_ascii x) (N_of_ascii z) = Lt) as ->; [|reflexivity].
    apply N.compare_lt_iff. now transitivity (N_of_ascii y).
Qed.

Lemma key_compare_eq a b : key_compare a b = Eq <-> a = b.
Proof.
  destruct a as [a1 a2], b as [b1 b2]. unfold key_compare; simpl. split.
  - destruct (String.compare a1 b1) eqn:E1; try easy.
    intros E2. apply String.compare_eq_iff in E1, E2. congruence.
  - intros [= -> ->]. now rewrite !string_compare_refl.
Qed.

Lemma key_compare_antisym a b : key_compare a b = CompOpp (key_compare b a).
Proof.
  destruct a as [a1 a2], b as [b1 b2]. unfold key_compare; simpl.
  rewrite (String.compare_antisym a1 b1), (String.compare_antisym a2 b2).
  now destruct (String.compare b1 a1).
Qed.

Lemma key_lt_trans a b c : key_lt a b -> key_lt b c -> key_lt a c.
Proof.
  destruct a as [a1 a2], b as [b1 b2], c as [c1 c2].
  unfold key_lt, key_compare; simpl.
  destruct (String.compare a1 b1) eqn:E1; try easy;
    destruct (String.compare b1 c1) eqn:E2; try easy; intros H1 H2.
  - apply String.compare_eq_iff in E1, E2. subst.
    rewrite string_compare_refl. eauto using string_compare_lt_trans.
  - apply String.compare_eq_iff in E1. subst. now rewrite E2.
  - apply String.compare_eq_iff in E2. subst. now rewrite E1.
  - now rewrite (string_compare_lt_trans _ _ _ E1 E2).
Qed.

Lemma key_lt_irrefl a : ~ key_lt a a.
Proof.
  unfold key_lt. intros H.
  assert (key_compare a a = Eq) by now apply key_compare_eq. congruence.
Qed.

(** Among keys with one description the order is that of the ids. *)
Lemma key_lt_same_description p1 p2 d :
  key_lt (p1, d) (p2, d) -> String.compare p1 p2 = Lt.
Proof.
  unfold key_lt, key_compare; simpl.
  destruct (String.compare p1 p2); try easy.
  now rewrite string_compare_refl.
Qed.

(** ** Grouping *)

Lemma in_count_in k g r :
  In r (count_in k g) -> key_of r = k \/ In r g.
Proof.
  induction g as [|x t IH]; simpl.
  - intros [<-|[]]. left. now destruct k.
  - destruct (key_compare k (key_of x)) eqn:E.
    + apply key_compare_eq in E. intros [<-|H]; [left|right; now right].
      now rewrite E.
    + intros [<-|H]; [left; now destruct k | now right].
    + intros [<-|H]; [right; now left|].
      destruct (IH H); [now left | right; now right].
Qed.

Lemma count_in_sorted k g : key_sorted g -> key_sorted (count_in k g).
Proof.
  unfold key_sorted. induction 1 as [|x t Hs IH Hx]; simpl.
  - repeat constructor.
  - destruct (key_compare k (key_of x)) eqn:E.
    + constructor; [exact Hs|]. exact Hx.
    + constructor; [now constructor|]. constructor.
      * unfold key_of at 1; simpl. now destruct k.
      * eapply List.Forall_impl; [|exact Hx]. simpl. intros y Hy.
        apply key_lt_trans with (key_of x); [|exact Hy].
        unfold key_of at 1; simpl. now destruct k.
    + constructor; [exact IH|]. apply List.Forall_forall. intros y Hy.
      apply in_count_in in Hy as [<-|Hy].
      * unfold key_lt. rewrite key_compare_antisym, E. reflexivity.
      * rewrite List.Forall_forall in Hx. now apply Hx.
Qed.

Lemma group_sizes_snoc keys k :
  group_sizes (keys ++ [k]) = count_in k (group_sizes keys).
Proof. unfold group_sizes. now rewrite fold_left_app. Qed.

Lemma group_sizes_sorted keys : key_sorted (group_sizes keys).
Proof.
  induction keys as [|k keys IH] using rev_ind.
  - constructor.
  - rewrite group_sizes_snoc. now apply count_in_sorted.
Qed.

Lemma has_key_true k r : has_key k r = true <-> key_of r = k.
Proof. unfold has_key. apply bool_decide_eq_true. Qed.

Lemma has_key_new k k' n :
  has_key k' {| pathway_id := fst k; pathway_description := snd k; KO_count := n |}
  = bool_decide (k = k').
Proof. unfold has_key, key_of; simpl. now destruct k. Qed.

Lemma count_for_cons k x l :
  count_for k (x :: l)
  = (if has_key k x then KO_count x else 0) + count_for k l.
Proof. unfold count_for. simpl. now destruct (has_key k x). Qed.

(** [count_in] adds one to the total of its key and leaves the others. *)
Lemma count_for_count_in k' k g :
  count_for k' (count_in k g)
  = count_for k' g + (if bool_decide (k = k') then 1 else 0).
Proof.
  induction g as [|x t IH].
  - simpl. rewrite count_for_cons, has_key_new.
    unfold count_for; simpl. destruct (bool_decide (k = k')); lia.
  - cbn [count_in]. destruct (key_compare k (key_of x)) eqn:E.
    + apply key_compare_eq in E. rewrite !count_for_cons.
      change (has_key k' {| pathway_id := pathway_id x;
                            pathway_description := pathway_description x;
                            KO_count := S (KO_count x) |})
        with (has_key k' x).
      cbn [KO_count]. unfold has_key. rewrite <- E.
      destruct (bool_decide (k = k')); lia.
    + rewrite !count_for_cons, has_key_new. cbn [KO_count].
      destruct (bool_decide (k = k')); lia.
    + rewrite !count_for_cons, IH. lia.
Qed.

Lemma count_for_group_sizes k keys :
  count_for k (group_sizes keys) = count_occ key_eq_dec keys k.
Proof.
  induction keys as [|k0 keys IH] using rev_ind; [reflexivity|].
  rewrite group_sizes_snoc, count_for_count_in, IH, count_occ_app. simpl.
  destruct (key_eq_dec k0 k) as [->|Hne].
  - now rewrite bool_decide_eq_true_2.
  - now rewrite bool_decide_eq_false_2.
Qed.

Lemma has_key_false k r : has_key k r = false <-> key_of r <> k.
Proof. unfold has_key. apply bool_decide_eq_false. Qed.

Lemma filter_none {A} (f : A -> bool) l :
  (forall y, In y l -> f y = false) -> List.filter f l = [].
Proof.
  induction l as [|x t IH]; [reflexivity|]. intros H. simpl.
  rewrite (H x) by now left. apply IH. intros y Hy. apply H. now right.
Qed.

(** In a key-sorted table a row carries the whole total of its key. *)
Lemma count_for_sorted g r :
  key_sorted g -> In r g -> count_for (key_of r) g = KO_count r.
Proof.
  unfold key_sorted. induction 1 as [|x t Hs IH Hx]; [easy|].
  rewrite List.Forall_forall in Hx. rewrite count_for_cons. intros [->|Hin].
  - rewrite (proj2 (has_key_true _ _)) by reflexivity.
    assert (count_for (key_of r) t = 0) as ->; [|lia].
    unfold count_for. rewrite filter_none; [reflexivity|].
    intros y Hy. apply has_key_false. intros E.
    apply Hx in Hy. rewrite E in Hy. now apply key_lt_irrefl in Hy.
  - assert (has_key (key_of r) x = false) as ->.
    { apply has_key_false. intros E. apply Hx in Hin. rewrite E in Hin.
      now apply key_lt_irrefl in Hin. }
    rewrite IH by exact Hin. lia.
Qed.

Lemma count_for_positive k g :
  0 < count_for k g -> exists r, In r g /\ key_of r = k.
Proof.
  induction g as [|x t IH]; [unfold count_for; simpl; lia|].
  rewrite count_for_cons. destruct (has_key k x) eqn:E.
  - apply has_key_true in E. exists x. split; [now left|exact E].
  - intros H. destruct (IH H) as (r & Hr & Hk). exists r. split; [now right|exact Hk].
Qed.

(** The row of a key that occurs: its count is the number of occurrences. *)
Lemma group_sizes_row keys k :
  In k keys ->
  In {| pathway_id := fst k; pathway_description := snd k;
        KO_count := count_occ key_eq_dec keys k |} (group_sizes keys).
Proof.
  intros Hin. apply (count_occ_In key_eq_dec) in Hin.
  destruct (count_for_positive k (group_sizes keys)) as (r & Hr & Hk).
  { rewrite count_for_group_sizes. lia. }
  pose proof (count_for_sorted _ _ (group_sizes_sorted keys) Hr) as Hc.
  rewrite Hk, count_for_group_sizes in Hc.
  destruct r as [p d n]. unfold key_of in Hk; simpl in *. subst. exact Hr.
Qed.

Lemma count_occ_described desc_map ids p d :
  desc_map !! p = Some d ->
  count_occ key_eq_dec (described desc_map ids) (p, d)
  = count_occ string_dec ids p.
Proof.
  intros Hd. induction ids as [|q ids IH]; [reflexivity|].
  unfold described in *. cbn [flat_map]. rewrite count_occ_app, IH.
  destruct (string_dec q p) as [->|Hne].
  - rewrite Hd, (count_occ_cons_eq string_dec ids eq_refl).
    now rewrite (count_occ_cons_eq key_eq_dec [] eq_refl).
  - rewrite (count_occ_cons_neq string_dec ids Hne).
    destruct (desc_map !! q) as [d'|]; [|reflexivity].
    rewrite (count_occ_cons_neq key_eq_dec []); [reflexivity|congruence].
Qed.

(** Every described id has its row in the summary, and the row counts all
    the edges of that id. *)
Lemma summarize_counts_every_edge desc_map ids p d :
  In p ids -> desc_map !! p = Some d ->
  In {| pathway_id := p; pathway_description := d;
        KO_count := count_occ string_dec ids p |} (summarize desc_map ids).
Proof.
  intros Hin Hd. unfold summarize.
  rewrite <- (count_occ_described desc_map ids p d Hd).
  apply (group_sizes_row (described desc_map ids) (p, d)).
  unfold described. apply in_flat_map. exists p. split; [exact Hin|].
  rewrite Hd. now left.
Qed.

(** ** Deduplication by description *)

Lemma mem_string_In s l : mem_string s l = true <-> In s l.
Proof.
  unfold mem_string. rewrite existsb_exists. split.
  - intros (x & Hx & E). apply String.eqb_eq in E. now subst.
  - intros H. exists s. split; [exact H|apply String.eqb_refl].
Qed.

(** A row that is kept is the first of its description. *)
Lemma drop_duplicates_from_first l : forall seen r,
  In r (drop_duplicates_from seen l) ->
  ~ In (pathway_description r) seen /\
  exists l1 l2,
    l = l1 ++ r :: l2 /\
    forall x, In x l1 -> pathway_description x <> pathway_description r.
Proof.
  induction l as [|x t IH]; intros seen r; [easy|]. cbn [drop_duplicates_from].
  destruct (mem_string (pathway_description x) seen) eqn:E.
  - intros H. apply IH in H as (Hs & l1 & l2 & -> & Hl1).
    split; [exact Hs|]. exists (x :: l1), l2. split; [reflexivity|].
    intros y [<-|Hy]; [|now apply Hl1].
    apply mem_string_In in E. congruence.
  - intros [<-|H].
    + split.
      * intros Hin. apply mem_string_In in Hin. congruence.
      * exists [], t. split; [reflexivity|]. easy.
    + apply IH in H as (Hs & l1 & l2 & -> & Hl1). split.
      * intros Hin. apply Hs. now right.
      * exists (x :: l1), l2. split; [reflexivity|].
        intros y [<-|Hy]; [|now apply Hl1].
        intros E'. apply Hs. now left.
Qed.

(** Every description that comes in goes out. *)
Lemma drop_duplicates_from_complete l : forall seen x,
  In x l -> ~ In (pathway_description x) seen ->
  exists r, In r (drop_duplicates_from seen l) /\
            pathway_description r = pathway_description x.
Proof.
  induction l as [|y t IH]; intros seen x; [easy|]. cbn [drop_duplicates_from].
  intros Hin Hs. destruct (mem_string (pathway_description y) seen) eqn:E.
  - destruct Hin as [->|Hin].
    + apply mem_string_In in E. contradiction.
    + now apply IH.
  - destruct Hin as [->|Hin]; [exists x; split; [now left|reflexivity]|].
    destruct (string_dec (pathway_description y) (pathway_description x)) as [Ey|Ny].
    + exists y. split; [now left|exact Ey].
    + destruct (IH (pathway_description y :: seen) x Hin) as (r & Hr & Er).
      * intros [Hy|Hy]; [contradiction|now apply Hs].
      * exists r. split; [now right|exact Er].
Qed.

Lemma sorted_after l1 : forall (r : summary_row) l2,
  key_sorted (l1 ++ r :: l2) ->
  forall x, In x l2 -> key_lt (key_of r) (key_of x).
Proof.
  unfold key_sorted. induction l1 as [|y l1 IH]; intros r l2 Hs x Hx.
  - apply StronglySorted_inv in Hs as [_ Hr].
    rewrite List.Forall_forall in Hr. now apply Hr.
  - apply StronglySorted_inv in Hs as [Hs _]. now apply (IH r l2).
Qed.

Lemma filter_sorted (f : summary_row -> bool) l :
  key_sorted l -> key_sorted (List.filter f l).
Proof.
  unfold key_sorted. induction 1 as [|x t Hs IH Hx]; simpl; [constructor|].
  destruct (f x); [|exact IH]. constructor; [exact IH|].
  rewrite List.Forall_forall in *. intros y Hy.
  apply filter_In in Hy as [Hy _]. now apply Hx.
Qed.

(** In a key-sorted table the row kept for a description has the smallest
    key among the rows of that description. *)
Lemma drop_duplicates_smallest l r r' :
  key_sorted l -> In r (drop_duplicates l) -> In r' l ->
  pathway_description r' = pathway_description r ->
  r' = r \/ String.compare (pathway_id r) (pathway_id r') = Lt.
Proof.
  intros Hs Hr Hr' Ed. unfold drop_duplicates in Hr.
  apply drop_duplicates_from_first in Hr as (_ & l1 & l2 & -> & Hl1).
  apply in_app_iff in Hr' as [Hin|[->|Hin]].
  - now apply Hl1 in Hin.
  - now left.
  - right. pose proof (sorted_after _ _ _ Hs _ Hin) as Hlt.
    unfold key_of in Hlt. rewrite Ed in Hlt.
    now apply key_lt_same_description in Hlt.
Qed.

(** The exclusion looks at the description alone, so rows of one
    description stay or go together. *)
Lemma exclusion_filter_spec exclude_terms summary_df filtered :
  exclusion_filter exclude_terms summary_df = Ok filtered ->
  exists keep : string -> bool,
    filtered = List.filter (fun row => keep (pathway_description row)) summary_df.
Proof.
  unfold exclusion_filter. destruct (re_compile _) as [r|e]; [|discriminate].
  intros [= <-]. now exists (fun d => negb (re_search r (lower d))).
Qed.

Lemma drop_duplicates_In l r : In r (drop_duplicates l) -> In r l.
Proof.
  intros H. apply drop_duplicates_from_first in H as (_ & l1 & l2 & -> & _).
  apply in_app_iff. right. now left.
Qed.

(** The groups leave [groupby] in key order, the exclusion drops or keeps
    all rows of a description together, and [drop_duplicates] keeps the
    first row of each description: the row kept has the smallest key
    among the groups of its description. *)
Lemma kept_row_is_smallest_group
    (desc_map : gmap string string) (ids exclude_terms : list string)
    (filtered : list summary_row) :
  filtered = summarize desc_map ids \/
  exclusion_filter exclude_terms (summarize desc_map ids) = Ok filtered ->
  forall r r',
    In r (drop_duplicates filtered) -> In r' (summarize desc_map ids) ->
    pathway_description r' = pathway_description r ->
    r' = r \/ String.compare (pathway_id r) (pathway_id r') = Lt.
Proof.
  intros Hf r r' Hr Hr' Ed.
  pose proof (group_sizes_sorted (described desc_map ids)) as Hs.
  fold (summarize desc_map ids) in Hs.
  destruct Hf as [->|Hf].
  - now apply (drop_duplicates_smallest (summarize desc_map ids)).
  - apply exclusion_filter_spec in Hf as [keep ->].
    apply (drop_duplicates_smallest
             (List.filter (fun row => keep (pathway_description row))
                          (summarize desc_map ids))); auto.
    + now apply filter_sorted.
    + apply drop_duplicates_In, filter_In in Hr as [_ Hk].
      apply filter_In. split; [exact Hr'|]. now rewrite Ed.
Qed.

(** ** Runs that find the cache *)


(** ** Exclusion *)

(** C5 at its failing inputs: the terms are joined with [|] and handed to
    [str.contains], which reads the result as a regular expression.
    - The term that spells out a description with parentheses in it does
      not exclude that description: the parentheses group, they do not
      match themselves.
    - A term with a dot excludes a description that does not contain the
      term: the dot matches the blank.
    - An exclusion file without a term gives the empty pattern, which is
      found in every description, so every group is dropped.
    - The example of the specification, a term without operators, does
      what the claim says. *)
Theorem exclusion_terms_are_read_as_patterns :
  (exclude_terms_of ("Citrate cycle (TCA cycle)" +:+ chr NL)
   = ["citrate cycle (tca cycle)"] /\
   contains "citrate cycle (tca cycle)" (lower (pathway_description citrate_row))
   = true /\
   exclusion_filter ["citrate cycle (tca cycle)"] [citrate_row]
   = Ok [citrate_row]) /\
  (contains "cycle." (lower (pathway_description citrate_row)) = false /\
   exclusion_filter ["cycle."] [citrate_row] = Ok []) /\
  (exclude_terms_of (chr NL) = [] /\
   exclusion_filter [] tied_table = Ok []) /\
  (exclusion_filter ["metabolic"]
     [ {| pathway_id := "map01100"; pathway_description := "Metabolic pathways";
          KO_count := 7 |};
       {| pathway_id := "map00010"; pathway_description := "Glycolysis";
          KO_count := 3 |} ]
   = Ok [ {| pathway_id := "map00010"; pathway_description := "Glycolysis";
             KO_count := 3 |} ]).
Proof. repeat split; vm_compute; reflexivity. Qed.

(** ** The enricher on answers it can read *)

(** X1, the part of C4 that holds: as long as no answer with status 200
    and a body lacks the tab, the enricher returns a mapping with an entry
    for every id it was given, and an id whose lookups all failed (by
    status or by a blank body) is mapped to [Unknown]. *)
Theorem enricher_is_total_on_readable_answers
    (kegg : nat -> string -> response) (pathway_ids : list string) (w : world) :
  (forall n pw, In pw pathway_ids ->
                exists d, description_of (kegg n (list_url pw)) = Ok d) ->
  exists m,
    fst (fetch_pathway_descriptions kegg pathway_ids w) = Ok m /\
    (forall pw, In pw pathway_ids -> is_Some (m !! pw)) /\
    (forall pw, In pw pathway_ids ->
                (forall n, status_code (kegg n (list_url pw)) <> 200 \/
                           strip (text (kegg n (list_url pw))) = "") ->
                m !! pw = Some "Unknown").
Proof.
  intros Hread. unfold fetch_pathway_descriptions.
  destruct (describe_returns kegg pathway_ids ∅ w Hread) as [m Hm].
  exists m. split; [exact Hm|]. split.
  - intros pw Hin.
    destruct (describe_total kegg _ _ _ _ pw Hm Hin) as (n & d & Hd & _). eauto.
  - intros pw Hin Hfail.
    destruct (describe_total kegg _ _ _ _ pw Hm Hin) as (n & d & Hd & Hdesc).
    rewrite (description_of_failed _ (Hfail n)) in Hdesc. congruence.
Qed.

(** Two ids, no service in reach: both are mapped to [Unknown]. *)
Lemma enricher_is_total_on_readable_answers_witness :
  exists m,
    fst (fetch_pathway_descriptions unreachable ["map00010"; "map00020"]
           empty_world) = Ok m /\
    (forall pw, In pw ["map00010"; "map00020"] -> is_Some (m !! pw)) /\
    (forall pw, In pw ["map00010"; "map00020"] ->
                (forall n, status_code (unreachable n (list_url pw)) <> 200 \/
                           strip (text (unreachable n (list_url pw))) = "") ->
                m !! pw = Some "Unknown").
Proof.
  apply (enricher_is_total_on_readable_answers unreachable
           ["map00010"; "map00020"] empty_world).
  intros n pw _. exists "Unknown". reflexivity.
Defined.

(** ** Writing and reading the cache *)

Lemma has_char_cons c x s :
  has_char c (String x s) = Ascii.eqb c x || has_char c s.
Proof.
  unfold has_char, chr. cbn [contains String.prefix].
  destruct (ascii_dec c x) as [->|Hne].
  - rewrite Ascii.eqb_refl. now destruct s.
  - apply Ascii.eqb_neq in Hne. now rewrite Hne.
Qed.

Lemma has_char_app c a b : has_char c (a +:+ b) = has_char c a || has_char c b.
Proof.
  induction a as [|x a IH]; [reflexivity|].
  now rewrite app_String, !has_char_cons, IH, orb_assoc.
Qed.

Lemma split_on_clean c a : has_char c a = false -> split_on c a = [a].
Proof.
  induction a as [|x a IH]; [reflexivity|].
  rewrite has_char_cons. intros [Hx Ha]%orb_false_iff. cbn [split_on].
  rewrite Ascii.eqb_sym, Hx, (IH Ha). reflexivity.
Qed.

Lemma split_on_sep c a b :
  has_char c a = false -> split_on c (a +:+ String c b) = a :: split_on c b.
Proof.
  induction a as [|x a IH].
  - intros _. rewrite app_empty_l. cbn [split_on]. now rewrite Ascii.eqb_refl.
  - rewrite has_char_cons. intros [Hx Ha]%orb_false_iff.
    rewrite app_String. cbn [split_on].
    rewrite Ascii.eqb_sym, Hx, (IH Ha). reflexivity.
Qed.

Lemma app_chr a c b : (a +:+ chr c) +:+ b = a +:+ String c b.
Proof. now rewrite app_assoc_s. Qed.

Lemma needs_quote_false s :
  needs_quote s = false ->
  has_char TAB s = false /\ has_char DQUOTE s = false /\
  has_char NL s = false.
Proof.
  unfold needs_quote. intros H.
  repeat (apply orb_false_iff in H as [H ?]). auto.
Qed.

Lemma edge_ok_fields e :
  edge_ok e = true ->
  plain_cell (fst e) = true /\ plain_cell (snd e) = true /\
  needs_quote (fst e) = false /\ needs_quote (snd e) = false.
Proof.
  unfold edge_ok. intros H.
  apply andb_true_iff in H as [H _]. apply andb_true_iff in H as [H _].
  apply andb_true_iff in H as [H Q2]. apply andb_true_iff in H as [H Q1].
  apply andb_true_iff in H as [P1 P2].
  apply negb_true_iff in Q1, Q2. auto.
Qed.

Lemma edge_ok_no_return e :
  edge_ok e = true ->
  has_char CR (fst e) = false /\ has_char CR (snd e) = false.
Proof.
  unfold edge_ok. intros H.
  apply andb_true_iff in H as [H R2]. apply andb_true_iff in H as [_ R1].
  apply negb_true_iff in R1, R2. auto.
Qed.

(** The record the writer makes of an edge. *)
Lemma csv_line_edge e :
  edge_ok e = true ->
  csv_line [fst e; snd e] = (fst e +:+ String TAB (snd e)) +:+ chr NL.
Proof.
  intros (_ & _ & H1 & H2)%edge_ok_fields. unfold csv_line.
  cbn [List.map join]. unfold csv_field. rewrite H1, H2.
  destruct (fst e); reflexivity.
Qed.

Lemma table_lines_record body rest :
  has_char NL body = false -> body <> "" ->
  table_lines ((body +:+ chr NL) +:+ rest) = split_on TAB body :: table_lines rest.
Proof.
  intros Hnl Hne. unfold table_lines.
  rewrite app_chr, (split_on_sep NL body rest Hnl). cbn [List.filter].
  apply String.eqb_neq in Hne. rewrite Hne. reflexivity.
Qed.

Lemma edge_body e :
  edge_ok e = true ->
  has_char NL (fst e +:+ String TAB (snd e)) = false /\
  fst e +:+ String TAB (snd e) <> "" /\
  split_on TAB (fst e +:+ String TAB (snd e)) = [fst e; snd e].
Proof.
  intros (_ & _ & H1 & H2)%edge_ok_fields.
  apply needs_quote_false in H1 as (T1 & _ & N1).
  apply needs_quote_false in H2 as (T2 & _ & N2).
  split; [|split].
  - rewrite has_char_app, has_char_cons, N1, N2. reflexivity.
  - intros H. destruct (fst e);
      rewrite ?app_empty_l, ?app_String in H; discriminate.
  - rewrite (split_on_sep TAB _ _ T1), (split_on_clean TAB _ T2). reflexivity.
Qed.

Lemma concat_empty_cons x l : String.concat "" (x :: l) = x +:+ String.concat "" l.
Proof.
  destruct l as [|y l]; cbn [String.concat].
  - now rewrite app_empty_r.
  - reflexivity.
Qed.

(** The rows written are the rows read. *)
Lemma table_lines_rows records :
  forallb edge_ok records = true ->
  table_lines (String.concat ""
                 (List.map csv_line (List.map (fun r => [fst r; snd r]) records)))
  = List.map (fun r => [fst r; snd r]) records.
Proof.
  induction records as [|e records IH]; [reflexivity|].
  cbn [forallb List.map]. intros [He Hrest]%andb_true_iff.
  rewrite concat_empty_cons, (csv_line_edge e He).
  destruct (edge_body e He) as (Hnl & Hne & Hsplit).
  rewrite (table_lines_record _ _ Hnl Hne), Hsplit, (IH Hrest). reflexivity.
Qed.

Lemma rows_have_no c records :
  Ascii.eqb c TAB = false -> Ascii.eqb c NL = false ->
  (forall e, In e records -> has_char c (fst e) = false /\ has_char c (snd e) = false) ->
  forallb edge_ok records = true ->
  has_char c (String.concat ""
                (List.map csv_line (List.map (fun r => [fst r; snd r]) records)))
  = false.
Proof.
  intros Ht Hn. induction records as [|e records IH]; intros Hc Hok; [reflexivity|].
  cbn [forallb List.map] in *. apply andb_true_iff in Hok as [He Hrest].
  rewrite concat_empty_cons, (csv_line_edge e He), !has_char_app.
  unfold chr. rewrite !has_char_cons.
  destruct (Hc e) as [H1 H2]; [now left|].
  rewrite H1, H2, Ht, Hn, IH; auto.
  intros e' He'. apply Hc. now right.
Qed.

Lemma rows_checked records :
  forallb edge_ok records = true ->
  forallb (fun r => (List.length r =? 2) && forallb plain_cell r)
          (List.map (fun r => [fst r; snd r]) records) = true.
Proof.
  induction records as [|e records IH]; [reflexivity|].
  cbn [forallb List.map]. intros [He Hrest]%andb_true_iff.
  apply edge_ok_fields in He as (P1 & P2 & _ & _).
  rewrite P1, P2, (IH Hrest). reflexivity.
Qed.

Lemma edges_have_no_quote_or_return records :
  forallb edge_ok records = true ->
  forall e, In e records ->
    (has_char DQUOTE (fst e) = false /\ has_char DQUOTE (snd e) = false) /\
    (has_char CR (fst e) = false /\ has_char CR (snd e) = false).
Proof.
  intros Hok e He. rewrite forallb_forall in Hok. apply Hok in He.
  destruct (edge_ok_no_return e He) as [R1 R2].
  apply edge_ok_fields in He as (_ & _ & H1 & H2).
  apply needs_quote_false in H1 as (_ & Q1 & _).
  apply needs_quote_false in H2 as (_ & Q2 & _). auto.
Qed.

(** An edge set that is not empty, with cells the writer does not quote
    and the reader takes as text, is read back as it was written. *)
Lemma read_csv_to_csv records :
  records <> [] -> forallb edge_ok records = true ->
  read_csv (to_csv (DataFrame records)) = Ok (DataFrame records).
Proof.
  intros Hne Hok.
  assert (DataFrame records
          = {| columns := ["ko"; "pathway_id"];
               rows := List.map (fun r => [fst r; snd r]) records |}) as ->.
  { destruct records; [contradiction|reflexivity]. }
  unfold read_csv, to_csv. cbn [columns rows].
  change (csv_line ["ko"; "pathway_id"])
    with (("ko" +:+ String TAB "pathway_id") +:+ chr NL).
  pose proof (edges_have_no_quote_or_return records Hok) as Hclean.
  rewrite !has_char_app.
  rewrite (rows_have_no DQUOTE records), (rows_have_no CR records);
    try reflexivity; try exact Hok;
    try (intros e He; now destruct (Hclean e He)).
  rewrite orb_false_r.
  change (has_char DQUOTE (("ko" +:+ String TAB "pathway_id") +:+ chr NL)
          || has_char CR (("ko" +:+ String TAB "pathway_id") +:+ chr NL))
    with false.
  rewrite table_lines_record by (reflexivity || discriminate).
  rewrite (table_lines_rows records Hok).
  change (split_on TAB ("ko" +:+ String TAB "pathway_id"))
    with ["ko"; "pathway_id"].
  change (forallb plain_cell ["ko"; "pathway_id"] && nodupb ["ko"; "pathway_id"])
    with true.
  cbn [andb List.length]. now rewrite (rows_checked records Hok).
Qed.





(** X2, the part of C6 that holds: a live pass that gathered at least one
    edge, with cells the writer does not quote and the reader takes as
    text, leaves a cache from which the next run, whatever it asks for,
    gets the same frame back. *)
Theorem nonempty_edge_set_round_trips
    (kegg kegg' : nat -> string -> response) (ko_list ko_list' : list string)
    (path : string) (w : world) (records : list (string * string)) :
  path <> "" -> fs w !! path = None ->
  fst (fetch_ko_pathway_mapping kegg ko_list (Some path) w)
  = Ok (DataFrame records) ->
  records <> [] -> forallb edge_ok records = true ->
  fst (fetch_ko_pathway_mapping kegg' ko_list' (Some path)
         (snd (fetch_ko_pathway_mapping kegg ko_list (Some path) w)))
  = Ok (DataFrame records).
Proof.
  intros Hpath Hnone Hfst Hne Hok.
  destruct (fetch_live_result kegg ko_list path w Hpath Hnone)
    as (records0 & Hres & Hfile).
  rewrite Hres in Hfst. injection Hfst as Hdf. rewrite Hdf in Hfile.
  rewrite (fetch_cached kegg' ko_list' path _ _ Hpath Hfile). cbn [fst].
  now apply read_csv_to_csv.
Qed.

(** The edge of K00001 is written by a first run and read by a second one
    that has no service in reach. *)
Lemma nonempty_edge_set_round_trips_witness :
  fst (fetch_ko_pathway_mapping unreachable []
         (Some "kegg_ko_pathway_map.tsv")
         (snd (fetch_ko_pathway_mapping glycolysis_service ["K00001"]
                 (Some "kegg_ko_pathway_map.tsv") empty_world)))
  = Ok (DataFrame [("K00001", "map00010")]).
Proof.
  apply (nonempty_edge_set_round_trips glycolysis_service unreachable
           ["K00001"] [] "kegg_ko_pathway_map.tsv" empty_world
           [("K00001", "map00010")]).
  - discriminate.
  - reflexivity.
  - reflexivity.
  - discriminate.
  - reflexivity.
Defined.

(** ** Terms without operators *)

Lemma prefix_spec t : forall s,
  String.prefix t s = true <-> exists b, s = t +:+ b.
Proof.
  induction t as [|c t IH]; intros s.
  - split; [intros _; now exists s|]. intros _. now destruct s.
  - destruct s as [|x s]; simpl.
    + split; [discriminate|]. intros [b H]. rewrite app_String in H. discriminate.
    + destruct (ascii_dec c x) as [->|Hne].
      * rewrite IH. split; intros [b H]; exists b.
        -- now rewrite app_String, H.
        -- rewrite app_String in H. now injection H.
      * split; [discriminate|]. intros [b H]. rewrite app_String in H.
        injection H as -> _. contradiction.
Qed.

Lemma contains_spec t s :
  contains t s = true <-> exists a b, s = a +:+ t +:+ b.
Proof.
  induction s as [|x s IH].
  - cbn [contains]. rewrite orb_false_r, prefix_spec. split.
    + intros [b H]. now exists "", b.
    + intros (a & b & H). destruct a; [now exists b|].
      rewrite app_String in H. discriminate.
  - cbn [contains]. rewrite orb_true_iff, prefix_spec, IH. split.
    + intros [[b H] | (a & b & H)].
      * now exists "", b.
      * exists (String x a), b. now rewrite app_String, H.
    + intros (a & b & H). destruct a as [|y a].
      * left. now exists b.
      * right. rewrite app_String in H. injection H as _ H. now exists a, b.
Qed.

Lemma length_app_s a b :
  String.length (a +:+ b) = String.length a + String.length b.
Proof.
  induction a as [|x a IH]; [reflexivity|].
  rewrite app_String. simpl. now rewrite IH.
Qed.

Lemma matches_lits t : forall cur m,
  matches (lits cur t) m = true <->
  exists m0, m = m0 +:+ t /\ matches cur m0 = true.
Proof.
  induction t as [|c t IH]; intros cur m; cbn [lits].
  - split.
    + intros H. exists m. now rewrite app_empty_r.
    + intros (m0 & -> & H). now rewrite app_empty_r.
  - rewrite IH. split.
    + intros (m1 & -> & (m0 & s2 & -> & H0 & (x & -> & Hx)%matches_RCls)%matches_RCat).
      cbn [cclass_mem] in Hx. apply Ascii.eqb_eq in Hx. subst x.
      exists m0. split; [|exact H0]. now rewrite app_chr.
    + intros (m0 & -> & H0). exists (m0 +:+ chr c). split.
      * now rewrite app_chr.
      * apply matches_RCat. exists m0, (chr c). repeat split; auto.
        apply matches_RCls. exists c. split; [reflexivity|].
        cbn [cclass_mem]. apply Ascii.eqb_refl.
Qed.

Lemma not_meta c x :
  is_meta c = false ->
  In x ["."; "^"; "$"; "*"; "+"; "?"; "{"; "}"; "["; "]"; "\"; "|"; "("; ")"]%char ->
  Ascii.eqb c x = false.
Proof.
  unfold is_meta. intros H Hx.
  destruct (Ascii.eqb c x) eqn:E; [|reflexivity].
  assert (existsb (Ascii.eqb c)
            ["."; "^"; "$"; "*"; "+"; "?"; "{"; "}"; "["; "]"; "\"; "|"; "("; ")"]%char
          = true) as Ht; [|congruence].
  apply existsb_exists. now exists x.
Qed.

(** A run of literal characters is read into the sequence as it stands. *)
Lemma re_parse_literal t : forall fuel alts cur rest,
  literal t = true ->
  re_parse (String.length t + fuel) alts cur (t +:+ rest)
  = re_parse fuel alts (lits cur t) rest.
Proof.
  induction t as [|c t IH]; intros fuel alts cur rest Hl; [reflexivity|].
  cbn [literal] in Hl. apply andb_true_iff in Hl as [Hc Hl].
  apply negb_true_iff in Hc.
  rewrite app_String. cbn [String.length Nat.add re_parse lits].
  rewrite (not_meta c "|"%char Hc), (not_meta c ")"%char Hc),
    (not_meta c "("%char Hc), (not_meta c "."%char Hc), Hc
    by (simpl; tauto).
  now apply IH.
Qed.

Lemma matches_branches alts cur m :
  matches (branches alts cur) m = true <->
  alts_match alts m \/ matches cur m = true.
Proof.
  destruct alts as [a|]; simpl.
  - now rewrite matches_RAlt, orb_true_iff.
  - tauto.
Qed.

Lemma matches_literal_term t m :
  matches (lits REps t) m = true <-> m = t.
Proof.
  rewrite matches_lits. split.
  - intros (m0 & -> & H%matches_REps). now subst.
  - intros ->. exists "". split; [reflexivity|]. reflexivity.
Qed.

(** Terms without operators, joined with [|], compile to the pattern that
    matches exactly the terms. *)
Lemma re_parse_terms terms : forall fuel alts,
  terms <> [] -> forallb literal terms = true ->
  exists r,
    re_parse (String.length (join "|" terms) + S fuel) alts REps (join "|" terms)
    = Ok (r, "") /\
    forall m, matches r m = true <-> alts_match alts m \/ In m terms.
Proof.
  induction terms as [|t rest IH]; intros fuel alts Hne Hl; [contradiction|].
  cbn [forallb] in Hl. apply andb_true_iff in Hl as [Ht Hrest].
  destruct rest as [|t2 rest].
  - cbn [join]. exists (branches alts (lits REps t)). split.
    + rewrite <- (app_empty_r t) at 2. now rewrite re_parse_literal.
    + intros m. rewrite matches_branches, matches_literal_term. simpl.
      intuition congruence.
  - change (join "|" (t :: t2 :: rest))
      with (t +:+ "|" +:+ join "|" (t2 :: rest)).
    rewrite length_app_s, <- Nat.add_assoc, re_parse_literal by exact Ht.
    change ("|" +:+ join "|" (t2 :: rest))
      with (String "|" (join "|" (t2 :: rest))).
    cbn [String.length Nat.add re_parse]. cbn [Ascii.eqb Bool.eqb].
    destruct (IH fuel (Some (branches alts (lits REps t)))) as (r & Hr & Hm);
      [discriminate|exact Hrest|].
    exists r. split; [exact Hr|].
    intros m. rewrite Hm. cbn [alts_match].
    rewrite matches_branches, matches_literal_term. simpl. intuition congruence.
Qed.

Lemma re_compile_terms terms :
  terms <> [] -> forallb literal terms = true ->
  exists r, re_compile (join "|" terms) = Ok r /\
            forall m, matches r m = true <-> In m terms.
Proof.
  intros Hne Hl. unfold re_compile.
  destruct (re_parse_terms terms 0 None Hne Hl) as (r & Hr & Hm).
  rewrite Nat.add_1_r in Hr. rewrite Hr. exists r. split; [reflexivity|].
  intros m. rewrite Hm. simpl. tauto.
Qed.

Lemma search_terms r terms s :
  (forall m, matches r m = true <-> In m terms) ->
  re_search r s = existsb (fun t => contains t s) terms.
Proof.
  intros Hm. apply eq_true_iff_eq.
  rewrite re_search_spec, existsb_exists. split.
  - intros (a & m & b & -> & H). exists m. split; [now apply Hm|].
    apply contains_spec. now exists a, b.
  - intros (t & Hin & (a & b & ->)%contains_spec).
    exists a, t, b. split; [reflexivity|]. now apply Hm.
Qed.

(** X3, the part of C5 that holds: for a list of terms that is not empty
    and holds no operator of the pattern language, a group is dropped if
    and only if its description, in lower case, contains one of the terms
    (as the exclusion file gives them, in lower case) as a substring. *)
Theorem literal_terms_exclude_by_substring
    (exclude_terms : list string) (summary_df : list summary_row) :
  exclude_terms <> [] -> forallb literal exclude_terms = true ->
  exclusion_filter exclude_terms summary_df
  = Ok (List.filter
          (fun row =>
             negb (existsb
                     (fun t => contains t (lower (pathway_description row)))
                     exclude_terms))
          summary_df).
Proof.
  intros Hne Hl. unfold exclusion_filter.
  destruct (re_compile_terms exclude_terms Hne Hl) as (r & -> & Hm).
  f_equal. apply filter_ext. intros row.
  now rewrite (search_terms r exclude_terms _ Hm).
Qed.

(** The example of the specification. *)
Lemma literal_terms_exclude_by_substring_witness :
  exclusion_filter ["metabolic"]
    [ {| pathway_id := "map01100"; pathway_description := "Metabolic pathways";
         KO_count := 7 |};
      {| pathway_id := "map00010"; pathway_description := "Glycolysis";
         KO_count := 3 |} ]
  = Ok [ {| pathway_id := "map00010"; pathway_description := "Glycolysis";
            KO_count := 3 |} ].
Proof.
  rewrite (literal_terms_exclude_by_substring ["metabolic"]).
  - reflexivity.
  - discriminate.
  - reflexivity.
Defined.

(** ** The normalizer, row by row *)

Lemma matches_ko_pattern k : matches ko_pattern k = is_ko_code k.
Proof.
  unfold ko_pattern. cbn [rseq].
  destruct k as [|c k]; [reflexivity|]. rewrite matches_cls_cat. cbn [cclass_mem].
  destruct k as [|d1 k]; [now rewrite andb_false_r|]. rewrite matches_cls_cat.
  destruct k as [|d2 k]; [now rewrite !andb_false_r|]. rewrite matches_cls_cat.
  destruct k as [|d3 k]; [now rewrite !andb_false_r|]. rewrite matches_cls_cat.
  destruct k as [|d4 k]; [now rewrite !andb_false_r|]. rewrite matches_cls_cat.
  destruct k as [|d5 k]; [now rewrite !andb_false_r|]. rewrite matches_cls_cat.
  cbn [cclass_mem is_ko_code]. rewrite !andb_assoc.
  destruct k as [|x k].
  - cbn [matches nullable]. now rewrite andb_true_r.
  - cbn [matches deriv]. rewrite matches_RNone. now rewrite andb_false_r.
Qed.

(** Line 24 accepts a code of that shape, and one followed by a line
    break. *)
Lemma valid_ko_shape r :
  valid_ko r = true <->
  is_ko_code (ko r) = true \/
  exists k, ko r = k +:+ chr NL /\ is_ko_code k = true.
Proof.
  unfold valid_ko. rewrite re_match_anchored_spec, matches_ko_pattern.
  split; (intros [H|(k & E & H)]; [now left|right; exists k]);
    [rewrite <- matches_ko_pattern | rewrite matches_ko_pattern]; auto.
Qed.

Lemma is_ko_code_chars k c :
  is_ko_code k = true -> is_digit c = false -> c <> "K"%char ->
  has_char c k = false.
Proof.
  intros Hk Hd HK.
  destruct k as [|c0 [|d1 [|d2 [|d3 [|d4 [|d5 [|x k]]]]]]]; try discriminate.
  cbn [is_ko_code] in Hk.
  apply andb_true_iff in Hk as [Hk H5]. apply andb_true_iff in Hk as [Hk H4].
  apply andb_true_iff in Hk as [Hk H3]. apply andb_true_iff in Hk as [Hk H2].
  apply andb_true_iff in Hk as [Hk H1].
  apply Ascii.eqb_eq in Hk. subst c0.
  assert (forall d, is_digit d = true -> Ascii.eqb c d = false) as Hne.
  { intros d Hdig. apply Ascii.eqb_neq. intros ->. congruence. }
  apply Ascii.eqb_neq in HK.
  rewrite !has_char_cons, HK, (Hne d1 H1), (Hne d2 H2), (Hne d3 H3),
    (Hne d4 H4), (Hne d5 H5).
  reflexivity.
Qed.

Lemma replace_go_absent x old new s :
  has_char x s = false -> replace_go (String x old) new 0 s = s.
Proof.
  induction s as [|c s IH]; [reflexivity|].
  rewrite has_char_cons. intros [Hc Hs]%orb_false_iff.
  cbn [replace_go String.prefix].
  destruct (ascii_dec x c) as [->|_].
  - now rewrite Ascii.eqb_refl in Hc.
  - now rewrite (IH Hs).
Qed.

(** Removing the prefix gives the code, whether the prefix was there or
    not. *)
Lemma replace_listed piece :
  is_ko_code (snd piece) = true ->
  replace "ko:" "" (listed piece) = snd piece.
Proof.
  intros Hk. assert (has_char "k"%char (snd piece) = false) as Hno.
  { apply is_ko_code_chars; [exact Hk|reflexivity|discriminate]. }
  unfold replace, listed. destruct (fst piece).
  - change ("ko:" +:+ snd piece)
      with (String "k" (String "o" (String ":" (snd piece)))).
    cbn [replace_go String.prefix String.length Nat.sub].
    destruct (ascii_dec "k" "k"); [|contradiction].
    destruct (ascii_dec "o" "o"); [|contradiction].
    destruct (ascii_dec ":" ":"); [|contradiction].
    assert (String.prefix "" (snd piece) = true) as -> by now destruct (snd piece).
    rewrite app_empty_l. now apply replace_go_absent.
  - now apply replace_go_absent.
Qed.

Lemma listed_no_comma piece :
  is_ko_code (snd piece) = true -> has_char ","%char (listed piece) = false.
Proof.
  intros Hk. assert (has_char ","%char (snd piece) = false) as Hno.
  { apply is_ko_code_chars; [exact Hk|reflexivity|discriminate]. }
  unfold listed. destruct (fst piece); [|exact Hno].
  now rewrite has_char_app, Hno.
Qed.

(** Splitting what was joined gives the pieces back. *)
Lemma split_on_join c l :
  l <> [] -> (forall x, In x l -> has_char c x = false) ->
  split_on c (join (chr c) l) = l.
Proof.
  induction l as [|x l IH]; [contradiction|]. intros _ Hc.
  destruct l as [|y l].
  - cbn [join]. apply split_on_clean, Hc. now left.
  - change (join (chr c) (x :: y :: l))
      with (x +:+ chr c +:+ join (chr c) (y :: l)).
    change (chr c +:+ join (chr c) (y :: l))
      with (String c (join (chr c) (y :: l))).
    rewrite split_on_sep by (apply Hc; now left).
    rewrite IH; [reflexivity|discriminate|].
    intros z Hz. apply Hc. now right.
Qed.

Lemma filter_all {A} (f : A -> bool) l :
  (forall x, In x l -> f x = true) -> List.filter f l = l.
Proof.
  induction l as [|x l IH]; [reflexivity|]. intros H. simpl.
  rewrite (H x) by now left. f_equal. apply IH. intros y Hy. apply H. now right.
Qed.

Lemma listed_not_placeholder pieces :
  forallb (fun p => is_ko_code (snd p)) pieces = true ->
  join "," (List.map listed pieces) <> "-".
Proof.
  destruct pieces as [|p pieces]; [discriminate|].
  cbn [forallb]. intros [Hp _]%andb_true_iff.
  assert (exists c s, listed p = String c s /\ c <> "-"%char) as (c & s & E & Hc).
  { unfold listed. destruct (fst p).
    - exists "k"%char, ("o:" +:+ snd p). split; [reflexivity|discriminate].
    - destruct (snd p) as [|c s]; [discriminate|].
      exists c, s. split; [reflexivity|]. intros ->.
      destruct s as [|d1 [|d2 [|d3 [|d4 [|d5 [|x k]]]]]]; discriminate. }
  cbn [List.map]. destruct (List.map listed pieces) as [|q qs]; cbn [join];
    rewrite E, ?app_String; intros [= H _]; contradiction.
Qed.

Lemma preprocess_input_row g raw pieces :
  raw <> "-" -> split_on ","%char raw = pieces ->
  preprocess_input [{| gene := g; ko_raw := Some raw |}]
  = List.filter valid_ko
      (List.map (fun piece => {| rec_gene := g; ko := replace "ko:" "" piece |})
                pieces).
Proof.
  intros Hraw Hsplit. unfold preprocess_input. cbn [List.filter].
  unfold present at 1. cbn [ko_raw].
  apply String.eqb_neq in Hraw. rewrite Hraw. cbn [negb flat_map].
  rewrite app_nil_r. unfold explode. cbn [ko_raw gene].
  rewrite Hsplit, map_map. reflexivity.
Qed.

Lemma preprocess_input_listed (g : string) (pieces : list (bool * string)) :
  forallb (fun p => is_ko_code (snd p)) pieces = true ->
  preprocess_input
    [{| gene := g; ko_raw := Some (join "," (List.map listed pieces)) |}]
  = List.map (fun p => {| rec_gene := g; ko := snd p |}) pieces.
Proof.
  intros Hok. destruct pieces as [|p0 rest] eqn:E; [reflexivity|].
  rewrite <- E in *. assert (pieces <> []) as Hne by (subst; discriminate).
  clear E. rewrite forallb_forall in Hok.
  rewrite (preprocess_input_row g _ (List.map listed pieces)).
  - rewrite map_map.
    rewrite (map_ext_in _ (fun p => {| rec_gene := g; ko := snd p |})).
    + apply filter_all. intros r (p & <- & Hp)%in_map_iff.
      apply valid_ko_shape. left. cbn [ko]. now apply Hok.
    + intros p Hp. now rewrite (replace_listed p (Hok p Hp)).
  - apply listed_not_placeholder, forallb_forall, Hok.
  - apply (split_on_join ","%char).
    + destruct pieces; [contradiction|discriminate].
    + intros x (p & <- & Hp)%in_map_iff. now apply listed_no_comma, Hok.
Qed.

(** X4: a field that lists codes of the shape K and five digits, each with
    or without the prefix [ko:], separated by commas, gives one record per
    code, in the order of the field, each with the gene of the row. *)
Theorem listed_codes_become_records (g : string) (pieces : list (bool * string)) :
  forallb (fun p => is_ko_code (snd p)) pieces = true ->
  preprocess_input
    [{| gene := g; ko_raw := Some (join "," (List.map listed pieces)) |}]
  = List.map (fun p => {| rec_gene := g; ko := snd p |}) pieces.
Proof. exact (preprocess_input_listed g pieces). Qed.

(** The field [ko:K00001,K00002] of the specification's example. *)
Lemma listed_codes_become_records_witness :
  preprocess_input [{| gene := "gene1"; ko_raw := Some "ko:K00001,K00002" |}]
  = [{| rec_gene := "gene1"; ko := "K00001" |};
     {| rec_gene := "gene1"; ko := "K00002" |}].
Proof.
  apply (listed_codes_become_records "gene1" [(true, "K00001"); (false, "K00002")]).
  reflexivity.
Defined.

Lemma preprocess_input_app a b :
  preprocess_input (a ++ b) = preprocess_input a ++ preprocess_input b.
Proof.
  unfold preprocess_input.
  now rewrite List.filter_app, flat_map_app, List.map_app, List.filter_app.
Qed.

Lemma preprocess_input_gene df r :
  In r (preprocess_input df) ->
  exists row, In row df /\ present row = true /\ rec_gene r = gene row.
Proof.
  unfold preprocess_input. intros [Hr _]%filter_In.
  apply in_map_iff in Hr as (r0 & <- & Hr0).
  apply in_flat_map in Hr0 as (row & Hrow & Hex).
  apply filter_In in Hrow as [Hin Hp]. exists row. repeat split; auto.
  unfold explode in Hex. destruct (ko_raw row); [|easy].
  apply in_map_iff in Hex as (piece & <- & _). reflexivity.
Qed.

(** X5: on frames whose code column holds text (on the others line 20
    raises), rows are normalized one by one and in their order: the output
    for two tables put after one another is the outputs put after one
    another; a row whose code field is missing or the placeholder gives
    nothing; and every record carries the gene of a row whose field was
    present. *)
Theorem rows_are_normalized_one_by_one :
  (forall a b,
      text_column a = true -> text_column b = true ->
      text_column (a ++ b) = true /\
      preprocess_input (a ++ b) = preprocess_input a ++ preprocess_input b) /\
  (forall row df,
      text_column (row :: df) = true -> text_column df = true ->
      ko_raw row = None \/ ko_raw row = Some "-" ->
      preprocess_input (row :: df) = preprocess_input df) /\
  (forall df r,
      text_column df = true ->
      In r (preprocess_input df) ->
      exists row, In row df /\ present row = true /\ rec_gene r = gene row).
Proof.
  split; [|split; [|intros df r _; apply preprocess_input_gene]].
  { intros a b Ha Hb. split; [|apply preprocess_input_app].
    destruct a as [|x a]; [exact Hb|]. destruct b as [|y b].
    - now rewrite app_nil_r.
    - cbn [text_column app] in *. change (x :: a ++ y :: b) with ((x :: a) ++ y :: b).
      now rewrite existsb_app, Ha. }
  intros row df _ _ H. change (row :: df) with ([row] ++ df).
  rewrite preprocess_input_app.
  assert (preprocess_input [row] = []) as ->; [|reflexivity].
  unfold preprocess_input. cbn [List.filter]. unfold present.
  destruct H as [-> | ->]; reflexivity.
Qed.

Lemma newline_code_passes g k :
  is_ko_code k = true ->
  preprocess_input [{| gene := g; ko_raw := Some (k +:+ chr NL) |}]
  = [{| rec_gene := g; ko := k +:+ chr NL |}].
Proof.
  intros Hk.
  assert (forall c, is_digit c = false -> c <> "K"%char ->
                    Ascii.eqb c NL = false ->
                    has_char c (k +:+ chr NL) = false) as Hno.
  { intros c Hd HK Hn. unfold chr.
    now rewrite has_char_app, has_char_cons, (is_ko_code_chars k c Hk Hd HK), Hn. }
  rewrite (preprocess_input_row g _ [k +:+ chr NL]).
  - cbn [List.map List.filter]. unfold replace.
    rewrite replace_go_absent by (apply Hno; [reflexivity|discriminate|reflexivity]).
    assert (valid_ko {| rec_gene := g; ko := k +:+ chr NL |} = true) as ->;
      [|reflexivity].
    apply valid_ko_shape. right. now exists k.
  - destruct k as [|c k]; [discriminate|]. rewrite app_String.
    intros [= -> H]. destruct k; discriminate.
  - apply split_on_clean, Hno; [reflexivity|discriminate|reflexivity].
Qed.

(** X6: on a frame whose code column holds ASCII text, every code of the
    output is the letter K followed by five decimal digits, or such a code
    followed by one line break (what [$] of line 24 lets through); and a
    field that holds a code and a line break does pass. *)
Theorem output_codes_have_the_KO_shape :
  (forall df,
      text_column df = true -> ascii_frame df = true ->
      List.Forall
        (fun r => is_ko_code (ko r) = true \/
                  exists k, ko r = k +:+ chr NL /\ is_ko_code k = true)
        (preprocess_input df)) /\
  (forall g k,
      is_ko_code k = true ->
      preprocess_input [{| gene := g; ko_raw := Some (k +:+ chr NL) |}]
      = [{| rec_gene := g; ko := k +:+ chr NL |}]).
Proof.
  split; [|exact newline_code_passes].
  intros df _ _. apply List.Forall_forall. intros r Hr.
  apply valid_ko_shape. unfold preprocess_input in Hr.
  now apply filter_In in Hr.
Qed.

(** ** One request per distinct code *)

Lemma unique_In x l : In x (unique l) <-> In x l.
Proof.
  induction l as [|a t IH]; [reflexivity|]. cbn [unique]. split.
  - intros [->|H]; [now left|]. apply filter_In in H as [H _].
    right. now apply IH.
  - intros [->|H]; [now left|].
    destruct (string_dec a x) as [->|Hne]; [now left|]. right.
    apply filter_In. split; [now apply IH|].
    now apply negb_true_iff, String.eqb_neq.
Qed.

Lemma unique_NoDup l : List.NoDup (unique l).
Proof.
  induction l as [|a t IH]; cbn [unique]; constructor.
  - intros H. apply filter_In in H as [_ H].
    now rewrite String.eqb_refl in H.
  - now apply List.NoDup_filter.
Qed.

Lemma app_inv_head_s p a b : p +:+ a = p +:+ b -> a = b.
Proof.
  induction p as [|c p IH]; [now rewrite !app_empty_l|].
  rewrite !app_String. intros [= H]. now apply IH.
Qed.

Lemma link_url_inj a b : link_url a = link_url b -> a = b.
Proof. apply app_inv_head_s. Qed.

Lemma list_url_inj a b : list_url a = list_url b -> a = b.
Proof. apply app_inv_head_s. Qed.

Lemma requests_made_blocks urls :
  requests_made (flat_map request_block urls) = List.length urls.
Proof.
  unfold requests_made. induction urls as [|u urls IH]; [reflexivity|].
  cbn [flat_map request_block app List.filter is_get List.length].
  now rewrite IH.
Qed.

Lemma requests_to_blocks u urls :
  requests_to u (flat_map request_block urls)
  = List.length (List.filter (fun v => String.eqb v u) urls).
Proof.
  unfold requests_to. induction urls as [|v urls IH]; [reflexivity|].
  cbn [flat_map request_block app List.filter].
  destruct (String.eqb v u); cbn [List.length]; now rewrite IH.
Qed.

Lemma asked_once (f : string -> string) l k :
  (forall a b, f a = f b -> a = b) -> List.NoDup l -> In k l ->
  List.length (List.filter (fun v => String.eqb v (f k)) (List.map f l)) = 1.
Proof.
  intros Hinj. induction l as [|a t IH]; [easy|].
  intros [Ha Ht]%List.NoDup_cons_iff Hin. cbn [List.map List.filter].
  destruct (String.eqb (f a) (f k)) eqn:E.
  - apply String.eqb_eq, Hinj in E. subst a. cbn [List.length]. f_equal.
    apply length_zero_iff_nil, filter_none.
    intros v (b & <- & Hb)%in_map_iff. apply String.eqb_neq.
    intros Eb. apply Hinj in Eb. now subst b.
  - apply String.eqb_neq in E. destruct Hin as [->|Hin]; [contradiction|].
    now apply IH.
Qed.

Lemma asked_some (f : string -> string) l u :
  List.length (List.filter (fun v => String.eqb v u) (List.map f l)) <> 0 ->
  exists k, In k l /\ u = f k.
Proof.
  intros H. destruct (List.filter _ _) as [|v vs] eqn:E; [contradiction|].
  assert (In v (List.filter (fun v => String.eqb v u) (List.map f l))) as Hv
    by (rewrite E; now left).
  apply filter_In in Hv as [(k & <- & Hk)%in_map_iff Heq].
  apply String.eqb_eq in Heq. eauto.
Qed.

(** X7: the codes handed to the resolver are those of the records, each
    once (line 133), so a live pass asks for each distinct code exactly
    once, however many genes share it, and for nothing else. *)
Theorem each_distinct_code_is_requested_once
    (kegg : nat -> string -> response) (ko_df : list id_record)
    (cache_file : option string) (w : world) :
  truthy cache_file = false \/ fs w !! default "" cache_file = None ->
  List.NoDup (ko_list_of ko_df) /\
  (forall k, In k (ko_list_of ko_df) <-> exists r, In r ko_df /\ ko r = k) /\
  exists evs,
    log (snd (fetch_ko_pathway_mapping kegg (ko_list_of ko_df) cache_file w))
    = log w ++ evs /\
    requests_made evs = List.length (ko_list_of ko_df) /\
    (forall r, In r ko_df -> requests_to (link_url (ko r)) evs = 1) /\
    (forall u, requests_to u evs <> 0 ->
               exists r, In r ko_df /\ u = link_url (ko r)).
Proof.
  intros Hlive.
  assert (forall k, In k (ko_list_of ko_df) <-> exists r, In r ko_df /\ ko r = k)
    as Hin.
  { intros k. unfold ko_list_of. rewrite unique_In, in_map_iff.
    split; intros (r & H1 & H2); exists r; auto. }
  split; [apply unique_NoDup|]. split; [exact Hin|].
  exists (flat_map request_block (List.map link_url (ko_list_of ko_df))).
  split; [now apply fetch_live_log|]. split; [|split].
  - now rewrite requests_made_blocks, length_map.
  - intros r Hr. rewrite requests_to_blocks.
    apply (asked_once link_url); [exact link_url_inj|apply unique_NoDup|].
    apply Hin. eauto.
  - intros u Hu. rewrite requests_to_blocks in Hu.
    apply asked_some in Hu as (k & Hk & ->).
    apply Hin in Hk as (r & Hr & <-). eauto.
Qed.

(** Two genes share K00001: two requests, one for each code. *)
Lemma each_distinct_code_is_requested_once_witness :
  ko_list_of shared_code_records = ["K00001"; "K00002"] /\
  requests_made
    (log (snd (fetch_ko_pathway_mapping unreachable
                 (ko_list_of shared_code_records) None empty_world))) = 2.
Proof.
  destruct (each_distinct_code_is_requested_once unreachable
              shared_code_records None empty_world)
    as (_ & _ & evs & Hlog & Hn & _).
  - left. reflexivity.
  - split; [reflexivity|]. rewrite Hlog. exact Hn.
Defined.

(** ** Answers of the service as it sends them *)

Lemma no_space_has_char c s :
  no_space s = true -> py_isspace c = true -> has_char c s = false.
Proof.
  intros Hs Hc. induction s as [|x s IH]; [reflexivity|].
  cbn [no_space] in Hs. apply andb_true_iff in Hs as [Hx Hs].
  rewrite has_char_cons, (IH Hs), orb_false_r.
  apply Ascii.eqb_neq. intros ->. now rewrite Hc in Hx.
Qed.

Lemma solid_parts s :
  solid s = true -> s <> "" /\ no_space s = true.
Proof.
  unfold solid. intros [H1 H2]%andb_true_iff. split; [|exact H2].
  now apply String.eqb_neq, negb_true_iff.
Qed.

Lemma lstrip_solid a t : solid a = true -> lstrip (a +:+ t) = a +:+ t.
Proof.
  intros [Hne Hs]%solid_parts. destruct a as [|c a]; [contradiction|].
  cbn [no_space] in Hs. apply andb_true_iff in Hs as [Hc _].
  rewrite app_String. cbn [lstrip].
  apply negb_true_iff in Hc. now rewrite Hc.
Qed.

Lemma rstrip_app_blank p s : rstrip s = "" -> rstrip (p +:+ s) = rstrip p.
Proof.
  intros Hs. induction p as [|c p IH].
  - now rewrite app_empty_l, Hs.
  - rewrite app_String. cbn [rstrip]. now rewrite IH.
Qed.

Lemma rstrip_app p s : rstrip s <> "" -> rstrip (p +:+ s) = p +:+ rstrip s.
Proof.
  intros Hs. induction p as [|c p IH].
  - now rewrite !app_empty_l.
  - rewrite !app_String. cbn [rstrip]. rewrite IH.
    destruct p as [|d p].
    + rewrite app_empty_l. now destruct (rstrip s).
    + now rewrite app_String.
Qed.

Lemma rstrip_no_space s : no_space s = true -> rstrip s = s.
Proof.
  induction s as [|c s IH]; [reflexivity|]. cbn [no_space rstrip].
  intros [Hc Hs]%andb_true_iff. rewrite (IH Hs).
  apply negb_true_iff in Hc. rewrite Hc. now destruct s.
Qed.

(** A text that [rstrip] leaves alone and that is not empty stays so
    behind any other text. *)
Lemma rstrip_behind p s :
  rstrip s = s -> s <> "" -> rstrip (p +:+ s) = p +:+ s /\ p +:+ s <> "".
Proof.
  intros Hr Hne. split.
  - rewrite rstrip_app; rewrite Hr; auto.
  - destruct p; [now rewrite app_empty_l|now rewrite app_String].
Qed.

Lemma rstrip_join sep l :
  l <> [] -> (forall x, In x l -> rstrip x = x /\ x <> "") ->
  rstrip (join sep l) = join sep l /\ join sep l <> "".
Proof.
  induction l as [|x l IH]; [contradiction|]. intros _ H.
  destruct l as [|y l].
  - cbn [join]. apply H. now left.
  - change (join sep (x :: y :: l)) with (x +:+ sep +:+ join sep (y :: l)).
    rewrite <- app_assoc_s.
    destruct IH as [Hr Hne]; [discriminate|intros z Hz; apply H; now right|].
    now apply rstrip_behind.
Qed.

Lemma answer_lines_join records :
  records <> [] ->
  answer_lines records
  = join (chr NL) (List.map (join (chr TAB)) records) +:+ chr NL.
Proof.
  unfold answer_lines.
  induction records as [|r records IH]; [contradiction|]. intros _.
  cbn [List.map]. rewrite concat_empty_cons. unfold line at 1.
  destruct records as [|r' records].
  - cbn [List.map String.concat join]. now rewrite app_empty_r.
  - rewrite IH by discriminate. cbn [List.map].
    change (join (chr NL) (join (chr TAB) r :: join (chr TAB) r'
                             :: List.map (join (chr TAB)) records))
      with (join (chr TAB) r +:+ chr NL
            +:+ join (chr NL) (join (chr TAB) r'
                                 :: List.map (join (chr TAB)) records)).
    now rewrite !app_assoc_s.
Qed.

(** Stripping a body of well-formed lines takes the last line break
    away and nothing else. *)
Lemma strip_answer_lines first rest records :
  solid first = true ->
  (forall r, In r ((first :: rest) :: records) ->
             rstrip (join (chr TAB) r) = join (chr TAB) r /\
             join (chr TAB) r <> "") ->
  strip (answer_lines ((first :: rest) :: records))
  = join (chr NL) (List.map (join (chr TAB)) ((first :: rest) :: records)) /\
  join (chr NL) (List.map (join (chr TAB)) ((first :: rest) :: records)) <> "".
Proof.
  intros Hfirst Hrows. rewrite answer_lines_join by discriminate.
  set (J := join (chr NL) _).
  assert (rstrip J = J /\ J <> "") as [Hr Hne].
  { apply rstrip_join; [discriminate|].
    intros x (r & <- & Hr)%in_map_iff. now apply Hrows. }
  assert (exists t, J = first +:+ t) as [t Ht].
  { unfold J. cbn [List.map].
    destruct (List.map (join (chr TAB)) records) as [|b bs]; cbn [join];
      destruct rest as [|f2 rest]; cbn [join].
    - exists "". now rewrite app_empty_r.
    - eexists. reflexivity.
    - eexists. reflexivity.
    - eexists. rewrite !app_assoc_s. reflexivity. }
  split; [|exact Hne]. unfold strip.
  rewrite Ht, app_assoc_s, (lstrip_solid _ _ Hfirst), <- app_assoc_s, <- Ht.
  rewrite rstrip_app_blank by reflexivity. exact Hr.
Qed.

Lemma replace_absent old new s : contains old s = false -> replace old new s = s.
Proof.
  unfold replace. induction s as [|c s IH]; [reflexivity|].
  cbn [contains replace_go]. intros [Hp Hs]%orb_false_iff.
  cbn [String.prefix] in Hp |- *. rewrite Hp. now rewrite (IH Hs).
Qed.

Lemma replace_path_prefix p :
  contains "path:" p = false -> replace "path:" "" ("path:" +:+ p) = p.
Proof.
  intros Hp. unfold replace.
  change ("path:" +:+ p)
    with (String "p" (String "a" (String "t" (String "h" (String ":" p))))).
  cbn [replace_go String.prefix String.length Nat.sub].
  destruct (ascii_dec "p" "p"); [|contradiction].
  destruct (ascii_dec "a" "a"); [|contradiction].
  destruct (ascii_dec "t" "t"); [|contradiction].
  destruct (ascii_dec "h" "h"); [|contradiction].
  destruct (ascii_dec ":" ":"); [|contradiction].
  assert (String.prefix "" p = true) as -> by now destruct p.
  rewrite app_empty_l. now apply replace_absent.
Qed.

Lemma solid_no c s : solid s = true -> py_isspace c = true -> has_char c s = false.
Proof. intros [_ Hs]%solid_parts. now apply no_space_has_char. Qed.

Lemma solid_rstrip s : solid s = true -> rstrip s = s /\ s <> "".
Proof. intros [Hne Hs]%solid_parts. split; [now apply rstrip_no_space|exact Hne]. Qed.

(** One line of a link answer and its two fields. *)
Lemma link_line_fields a p :
  solid a = true -> solid p = true ->
  split_on TAB (join (chr TAB) [a; "path:" +:+ p]) = [a; "path:" +:+ p].
Proof.
  intros Ha Hp. apply split_on_join; [discriminate|].
  intros x [<-|[<-|[]]].
  - now apply solid_no.
  - rewrite has_char_app, (solid_no TAB p Hp) by reflexivity. reflexivity.
Qed.

Lemma link_line_one_line a p :
  solid a = true -> solid p = true ->
  has_char NL (join (chr TAB) [a; "path:" +:+ p]) = false.
Proof.
  intros Ha Hp. cbn [join]. rewrite !has_char_app.
  rewrite (solid_no NL a Ha), (solid_no NL p Hp) by reflexivity. reflexivity.
Qed.

Lemma link_line_ends a p :
  solid p = true ->
  rstrip (join (chr TAB) [a; "path:" +:+ p]) = join (chr TAB) [a; "path:" +:+ p] /\
  join (chr TAB) [a; "path:" +:+ p] <> "".
Proof.
  intros [Hr Hne]%solid_rstrip. cbn [join]. rewrite <- !app_assoc_s.
  now apply rstrip_behind.
Qed.

(** Lines 38-44 on an answer as the service sends it: the pathway ids
    that start with [map], in the order of the answer, each paired with
    the code asked for. *)
Lemma link_records_answer k edges :
  (forall e, In e edges ->
             solid (fst e) = true /\ solid (snd e) = true /\
             contains "path:" (snd e) = false) ->
  link_records k {| status_code := 200; text := link_answer edges |}
  = List.map (fun e => (k, snd e))
      (List.filter (fun e => startswith "map" (snd e)) edges).
Proof.
  intros Hok. destruct edges as [|e0 edges]; [reflexivity|].
  unfold link_records. cbn [status_code text Nat.eqb andb].
  change (200 =? 200) with true. cbn [andb].
  unfold link_answer. cbn [List.map].
  destruct (strip_answer_lines (fst e0) ["path:" +:+ snd e0]
              (List.map (fun e => [fst e; "path:" +:+ snd e]) edges))
    as [Hstrip Hne].
  { apply Hok. now left. }
  { intros r [<-|(e & <- & He)%in_map_iff]; apply link_line_ends;
      apply Hok; [now left|now right]. }
  rewrite Hstrip. apply String.eqb_neq in Hne. rewrite Hne. cbn [negb].
  change ([fst e0; "path:" +:+ snd e0]
            :: List.map (fun e => [fst e; "path:" +:+ snd e]) edges)
    with (List.map (fun e => [fst e; "path:" +:+ snd e]) (e0 :: edges)).
  rewrite map_map. rewrite split_on_join.
  - generalize (e0 :: edges) Hok. clear. intros l Hok.
    induction l as [|e l IH]; [reflexivity|].
    destruct (Hok e) as (Ha & Hp & Hc); [now left|].
    cbn [List.map flat_map List.filter].
    rewrite (link_line_fields _ _ Ha Hp), (replace_path_prefix _ Hc).
    rewrite IH by (intros x Hx; apply Hok; now right).
    now destruct (startswith "map" (snd e)).
  - discriminate.
  - intros x (e & <- & He)%in_map_iff.
    destruct (Hok e He) as (Ha & Hp & _). now apply link_line_one_line.
Qed.

Lemma requests_made_app a b :
  requests_made (a ++ b) = requests_made a + requests_made b.
Proof. unfold requests_made. now rewrite List.filter_app, length_app. Qed.

(** The loop of lines 35-45 when the answer for a code does not depend on
    the moment it is asked. *)
Lemma resolve_uniform kegg (f : string -> list (string * string)) ko_list :
  forall records w,
    (forall n k, In k ko_list -> link_records k (kegg n (link_url k)) = f k) ->
    fst (resolve kegg ko_list records w) = Ok (records ++ flat_map f ko_list).
Proof.
  induction ko_list as [|k rest IH]; intros records w H.
  - cbn. now rewrite app_nil_r.
  - cbn [resolve]. rewrite bind_run. cbn [requests_get].
    rewrite bind_run. cbn [sleep emit fs log].
    rewrite IH by (intros n q Hq; apply H; now right).
    rewrite (H _ k) by now left. cbn [flat_map]. now rewrite <- app_assoc.
Qed.

(** A live pass returns the frame of what the loop gathered and, given a
    cache location, writes it there and nowhere else. *)
Lemma fetch_live kegg ko_list cache_file w :
  truthy cache_file = false \/ fs w !! default "" cache_file = None ->
  exists records,
    fst (resolve kegg ko_list [] w) = Ok records /\
    fst (fetch_ko_pathway_mapping kegg ko_list cache_file w)
    = Ok (DataFrame records) /\
    fs (snd (fetch_ko_pathway_mapping kegg ko_list cache_file w))
    = if truthy cache_file
      then <[default "" cache_file := to_csv (DataFrame records)]> (fs w)
      else fs w.
Proof.
  intros Hlive. unfold fetch_ko_pathway_mapping. rewrite bind_run.
  assert ((if truthy cache_file
           then path_exists (default "" cache_file) else mret false) w
          = (Ok false, w)) as ->.
  { destruct (truthy cache_file); [|reflexivity].
    destruct Hlive as [|Hnone]; [discriminate|].
    unfold path_exists. rewrite bool_decide_eq_false_2; [reflexivity|].
    intros [x Hx]. congruence. }
  rewrite bind_run.
  destruct (resolve_run kegg ko_list [] w) as [res Hres]. rewrite Hres.
  exists res. split; [reflexivity|]. rewrite bind_run.
  destruct (truthy cache_file) eqn:T; [|now split].
  unfold write_file. cbn [fs log].
  destruct cache_file as [path|]; [|discriminate]. cbn [truthy] in T.
  apply negb_true_iff in T. change (default "" (Some path)) with path.
  rewrite T. now split.
Qed.

(** X8: when the link endpoint answers each code with well-formed lines
    (code, tab, [path:] and a pathway id, nothing with white space in
    it), a live pass returns, code by code and line by line in the order
    of the answers, the ids that start with [map], without the prefix,
    each paired with the code asked for. *)
Theorem live_pass_reads_well_formed_answers
    (kegg : nat -> string -> response) (ko_list : list string)
    (cache_file : option string) (w : world)
    (paths : string -> list (string * string)) :
  truthy cache_file = false \/ fs w !! default "" cache_file = None ->
  (forall k e, In k ko_list -> In e (paths k) ->
               solid (fst e) = true /\ solid (snd e) = true /\
               contains "path:" (snd e) = false) ->
  (forall n k, In k ko_list ->
               kegg n (link_url k)
               = {| status_code := 200; text := link_answer (paths k) |}) ->
  fst (fetch_ko_pathway_mapping kegg ko_list cache_file w)
  = Ok (DataFrame
          (flat_map
             (fun k => List.map (fun e => (k, snd e))
                         (List.filter (fun e => startswith "map" (snd e))
                                      (paths k)))
             ko_list)).
Proof.
  intros Hlive Hok Hans.
  destruct (fetch_live kegg ko_list cache_file w Hlive) as (records & Hr & -> & _).
  rewrite (resolve_uniform kegg
             (fun k => List.map (fun e => (k, snd e))
                         (List.filter (fun e => startswith "map" (snd e))
                                      (paths k)))) in Hr.
  - now injection Hr as <-.
  - intros n k Hk. rewrite (Hans n k Hk).
    apply link_records_answer. intros e He. exact (Hok k e Hk He).
Qed.

(** The answer for K00001 lists the pathway under both of its ids; the
    one that starts with [map] is kept. *)
Lemma live_pass_reads_well_formed_answers_witness :
  fst (fetch_ko_pathway_mapping glycolysis_service ["K00001"] None empty_world)
  = Ok (DataFrame [("K00001", "map00010")]).
Proof.
  apply (live_pass_reads_well_formed_answers glycolysis_service ["K00001"]
           None empty_world
           (fun _ => [("ko:K00001", "map00010"); ("ko:K00001", "ko00010")])).
  - left. reflexivity.
  - intros k e _ [<-|[<-|[]]]; repeat split; reflexivity.
  - intros n k [<-|[]]. reflexivity.
Defined.

(** ** What a live pass returns, whatever the answers *)

Lemma split_on_no_sep c s : forall x, In x (split_on c s) -> has_char c x = false.
Proof.
  induction s as [|y s IH]; intros x.
  - intros [<-|[]]. reflexivity.
  - cbn [split_on]. destruct (Ascii.eqb y c) eqn:E.
    + intros [<-|H]; [reflexivity|now apply IH].
    + destruct (split_on c s) as [|h t].
      * intros [<-|[]]. unfold chr. rewrite has_char_cons, Ascii.eqb_sym, E.
        reflexivity.
      * intros [<-|H]; [|apply IH; now right].
        rewrite has_char_cons, Ascii.eqb_sym, E. apply IH. now left.
Qed.

Lemma split_on_sub c d s : forall x,
  In x (split_on c s) -> has_char d x = true -> has_char d s = true.
Proof.
  induction s as [|y s IH]; intros x.
  - intros [<-|[]]. auto.
  - cbn [split_on]. rewrite has_char_cons. destruct (Ascii.eqb y c).
    + intros [<-|H] Hd; [discriminate|].
      rewrite (IH x H Hd). apply orb_true_r.
    + destruct (split_on c s) as [|h t].
      * intros [<-|[]]. unfold chr. rewrite has_char_cons.
        intros [->|H]%orb_true_iff; [reflexivity|discriminate].
      * intros [<-|H].
        -- rewrite has_char_cons. intros [->|Hd]%orb_true_iff; [reflexivity|].
           rewrite (IH h) by (auto; now left). apply orb_true_r.
        -- intros Hd. rewrite (IH x) by (auto; now right). apply orb_true_r.
Qed.

(** Replacing by the empty text only takes characters away. *)
Lemma replace_go_deletes c old s : forall skip,
  has_char c (replace_go old "" skip s) = true -> has_char c s = true.
Proof.
  induction s as [|x s IH]; intros skip; [auto|].
  cbn [replace_go]. rewrite has_char_cons. destruct skip as [|k].
  - destruct (String.prefix old (String x s)).
    + rewrite app_empty_l. intros H. rewrite (IH _ H). apply orb_true_r.
    + rewrite has_char_cons. intros [->|H]%orb_true_iff; [reflexivity|].
      rewrite (IH _ H). apply orb_true_r.
  - intros H. rewrite (IH _ H). apply orb_true_r.
Qed.

(** Lines 38-44: every edge an answer contributes carries the code asked
    for and a pathway id that starts with [map] and holds neither a tab
    nor a line break. *)
Lemma link_records_edges k r e :
  In e (link_records k r) ->
  fst e = k /\ startswith "map" (snd e) = true /\
  has_char TAB (snd e) = false /\ has_char NL (snd e) = false.
Proof.
  unfold link_records. destruct (_ && _); [|easy].
  intros (l & Hl & He)%in_flat_map.
  destruct (split_on TAB l) as [|f1 [|field [|f3 fs']]] eqn:E; try easy.
  destruct (startswith "map" (replace "path:" "" field)) eqn:Hmap; [|easy].
  destruct He as [<-|[]]. cbn [fst snd].
  assert (In field (split_on TAB l)) as Hfield by (rewrite E; right; now left).
  repeat split; [exact Hmap| |].
  - destruct (has_char TAB (replace "path:" "" field)) eqn:H; [|reflexivity].
    apply replace_go_deletes in H.
    now rewrite (split_on_no_sep _ _ _ Hfield) in H.
  - destruct (has_char NL (replace "path:" "" field)) eqn:H; [|reflexivity].
    apply replace_go_deletes in H.
    apply (split_on_sub _ _ _ _ Hfield) in H.
    now rewrite (split_on_no_sep _ _ _ Hl) in H.
Qed.

Lemma link_records_failed k r :
  status_code r <> 200 \/ strip (text r) = "" -> link_records k r = [].
Proof.
  unfold link_records. intros [H|H].
  - apply Nat.eqb_neq in H. now rewrite H.
  - rewrite H. now rewrite andb_false_r.
Qed.

(** What holds of every edge of every answer holds of what the loop
    returns. *)
Lemma resolve_invariant kegg (P : string * string -> Prop) ko_list :
  forall records w res,
    (forall n k e, In k ko_list ->
                   In e (link_records k (kegg n (link_url k))) -> P e) ->
    List.Forall P records ->
    fst (resolve kegg ko_list records w) = Ok res ->
    List.Forall P res.
Proof.
  induction ko_list as [|k rest IH]; intros records w res H HP.
  - cbn. now intros [= <-].
  - cbn [resolve]. rewrite bind_run. cbn [requests_get].
    rewrite bind_run. cbn [sleep emit fs log]. apply IH.
    + intros n q e Hq. apply H. now right.
    + apply List.Forall_app. split; [exact HP|].
      apply List.Forall_forall. intros e He.
      apply (H (requests_made (log w)) k e); [now left|exact He].
Qed.

(** X9: a live pass that is given no cache location has nothing to
    write: it returns, whatever the service answers, and leaves the files
    as they were.  Whenever a live pass returns, with or without a cache
    location, what it returns is the frame of its edges; every edge pairs
    a code it was asked to resolve with a pathway id that starts with
    [map] and holds neither a tab nor a line break; a code whose lookup
    failed, by its status or by a blank body, has no edge; and the cache
    location, when one was given, is the only file written and holds the
    frame returned. *)
Theorem live_pass_returns_well_formed_edges
    (kegg : nat -> string -> response) (ko_list : list string)
    (cache_file : option string) (w : world) :
  truthy cache_file = false \/ fs w !! default "" cache_file = None ->
  (truthy cache_file = false ->
   exists records,
     fst (fetch_ko_pathway_mapping kegg ko_list cache_file w)
     = Ok (DataFrame records) /\
     fs (snd (fetch_ko_pathway_mapping kegg ko_list cache_file w)) = fs w) /\
  (forall mapping_df,
      fst (fetch_ko_pathway_mapping kegg ko_list cache_file w) = Ok mapping_df ->
      exists records,
        mapping_df = DataFrame records /\
        List.Forall
          (fun e => In (fst e) ko_list /\ startswith "map" (snd e) = true /\
                    has_char TAB (snd e) = false /\ has_char NL (snd e) = false)
          records /\
        (forall k,
            (forall n, status_code (kegg n (link_url k)) <> 200 \/
                       strip (text (kegg n (link_url k))) = "") ->
            ~ In k (List.map fst records)) /\
        fs (snd (fetch_ko_pathway_mapping kegg ko_list cache_file w))
        = if truthy cache_file
          then <[default "" cache_file := to_csv (DataFrame records)]> (fs w)
          else fs w).
Proof.
  intros Hlive.
  destruct (fetch_live kegg ko_list cache_file w Hlive)
    as (records & Hr & Hres & Hfs).
  split.
  { intros Hnone. exists records. split; [exact Hres|].
    now rewrite Hfs, Hnone. }
  intros mapping_df Hdf. rewrite Hres in Hdf. injection Hdf as <-.
  exists records. split; [reflexivity|]. split; [|split; [|exact Hfs]].
  - apply (resolve_invariant kegg _ ko_list [] w records); [|constructor|exact Hr].
    intros n k e Hk He. apply link_records_edges in He as (<- & H). auto.
  - intros k Hfail Hin.
    assert (List.Forall (fun e => fst e <> k) records) as HF.
    { apply (resolve_invariant kegg _ ko_list [] w records); [|constructor|exact Hr].
      intros n q e Hq He E.
      pose proof (link_records_edges _ _ _ He) as (Eq & _).
      rewrite Eq in E. subst q.
      now rewrite (link_records_failed _ _ (Hfail n)) in He. }
    apply in_map_iff in Hin as (e & E & He).
    rewrite List.Forall_forall in HF. exact (HF e He E).
Qed.

(** K00001 is known to the service, K00002 is not; no cache location is
    given: the pass returns, and nothing is written. *)
Lemma live_pass_returns_well_formed_edges_witness :
  exists records,
    fst (fetch_ko_pathway_mapping glycolysis_service ["K00001"; "K00002"]
           None empty_world)
    = Ok (DataFrame records) /\
    fs (snd (fetch_ko_pathway_mapping glycolysis_service ["K00001"; "K00002"]
               None empty_world))
    = fs empty_world.
Proof.
  destruct (live_pass_returns_well_formed_edges glycolysis_service
              ["K00001"; "K00002"] None empty_world) as [H _].
  - left. reflexivity.
  - apply H. reflexivity.
Defined.

(** Lines 57-58 on an answer as the list endpoint sends it: the second
    field of the line, blanks inside it kept. *)
Lemma description_of_line id desc :
  solid id = true -> has_char TAB desc = false ->
  rstrip desc = desc -> desc <> "" ->
  description_of {| status_code := 200; text := line [id; desc] |} = Ok desc.
Proof.
  intros Hid Htab Hr Hne. unfold description_of. cbn [status_code text].
  change (200 =? 200) with true. cbn [andb].
  change (line [id; desc]) with (answer_lines [[id; desc]]).
  destruct (strip_answer_lines id [desc] []) as [Hstrip Hnb]; [exact Hid| |].
  { intros r [<-|[]]. cbn [join]. rewrite <- app_assoc_s.
    now apply rstrip_behind. }
  cbn [List.map] in Hstrip, Hnb.
  change (join (chr NL) [join (chr TAB) [id; desc]])
    with (join (chr TAB) [id; desc]) in Hstrip, Hnb.
  rewrite Hstrip. apply String.eqb_neq in Hnb. rewrite Hnb. cbn [negb].
  rewrite split_on_join; [reflexivity|discriminate|].
  intros x [<-|[<-|[]]]; [now apply solid_no|exact Htab].
Qed.

(** X10: when the list endpoint answers each id with its line (the id, a
    tab, the description), the enricher returns the mapping from exactly
    the ids it was given to their descriptions. *)
Theorem enricher_reads_well_formed_answers
    (kegg : nat -> string -> response) (pathway_ids : list string)
    (desc : string -> string) (w : world) :
  (forall pw, In pw pathway_ids ->
              solid pw = true /\ has_char TAB (desc pw) = false /\
              rstrip (desc pw) = desc pw /\ desc pw <> "") ->
  (forall n pw, In pw pathway_ids ->
                kegg n (list_url pw)
                = {| status_code := 200; text := line [pw; desc pw] |}) ->
  exists m,
    fst (fetch_pathway_descriptions kegg pathway_ids w) = Ok m /\
    (forall pw, In pw pathway_ids -> m !! pw = Some (desc pw)) /\
    (forall pw, ~ In pw pathway_ids -> m !! pw = None).
Proof.
  intros Hok Hans.
  assert (forall n pw, In pw pathway_ids ->
                       description_of (kegg n (list_url pw)) = Ok (desc pw)) as Hd.
  { intros n pw Hin. rewrite (Hans n pw Hin).
    destruct (Hok pw Hin) as (H1 & H2 & H3 & H4).
    now apply description_of_line. }
  unfold fetch_pathway_descriptions.
  destruct (describe_returns kegg pathway_ids ∅ w) as [m Hm].
  { intros n pw Hin. exists (desc pw). now apply Hd. }
  exists m. split; [exact Hm|]. split.
  - intros pw Hin.
    destruct (describe_total kegg _ _ _ _ pw Hm Hin) as (n & d & Hmd & Hdesc).
    rewrite (Hd n pw Hin) in Hdesc. congruence.
  - intros pw Hout. now rewrite (describe_other kegg _ _ _ _ pw Hm Hout).
Qed.

(** The line the service holds for map00010. *)
Lemma enricher_reads_well_formed_answers_witness :
  exists m,
    fst (fetch_pathway_descriptions glycolysis_service ["map00010"] empty_world)
    = Ok m /\
    (forall pw, In pw ["map00010"] ->
                m !! pw = Some "Glycolysis / Gluconeogenesis") /\
    (forall pw, ~ In pw ["map00010"] -> m !! pw = None).
Proof.
  apply (enricher_reads_well_formed_answers glycolysis_service ["map00010"]
           (fun _ => "Glycolysis / Gluconeogenesis") empty_world).
  - intros pw [<-|[]]. repeat split; try reflexivity. discriminate.
  - intros n pw [<-|[]]. reflexivity.
Defined.

(** ** The summary, row by row *)

Lemma count_in_positive k g :
  List.Forall (fun r => 1 <= KO_count r) g ->
  List.Forall (fun r => 1 <= KO_count r) (count_in k g).
Proof.
  induction 1 as [|x t Hx Ht IH]; cbn [count_in].
  - repeat constructor.
  - destruct (key_compare k (key_of x)); repeat constructor; auto.
Qed.

Lemma count_in_total k g :
  list_sum (List.map KO_count (count_in k g))
  = S (list_sum (List.map KO_count g)).
Proof.
  unfold list_sum. induction g as [|x t IH]; [reflexivity|]. cbn [count_in].
  destruct (key_compare k (key_of x));
    cbn [List.map fold_right KO_count]; lia.
Qed.

Lemma group_sizes_positive keys :
  List.Forall (fun r => 1 <= KO_count r) (group_sizes keys).
Proof.
  induction keys as [|k keys IH] using rev_ind; [constructor|].
  rewrite group_sizes_snoc. now apply count_in_positive.
Qed.

Lemma group_sizes_total keys :
  list_sum (List.map KO_count (group_sizes keys)) = List.length keys.
Proof.
  induction keys as [|k keys IH] using rev_ind; [reflexivity|].
  rewrite group_sizes_snoc, count_in_total, IH, length_app. simpl. lia.
Qed.

(** A row of the grouping stands for a key that occurs, and counts its
    occurrences. *)
Lemma group_sizes_In keys r :
  In r (group_sizes keys) ->
  In (key_of r) keys /\ KO_count r = count_occ key_eq_dec keys (key_of r).
Proof.
  intros Hr.
  assert (KO_count r = count_occ key_eq_dec keys (key_of r)) as E.
  { rewrite <- count_for_group_sizes. symmetry.
    apply count_for_sorted; [apply group_sizes_sorted|exact Hr]. }
  split; [|exact E].
  apply (count_occ_In key_eq_dec). rewrite <- E.
  pose proof (group_sizes_positive keys) as HP.
  rewrite List.Forall_forall in HP. apply (HP r Hr).
Qed.

Lemma described_In desc_map ids p d :
  In (p, d) (described desc_map ids) <-> In p ids /\ desc_map !! p = Some d.
Proof.
  unfold described. rewrite in_flat_map. split.
  - intros (q & Hq & H). destruct (desc_map !! q) as [d'|] eqn:E; [|easy].
    destruct H as [[= -> ->]|[]]. auto.
  - intros [Hp Hd]. exists p. split; [exact Hp|]. rewrite Hd. now left.
Qed.

Lemma described_length desc_map ids :
  (forall p, In p ids -> is_Some (desc_map !! p)) ->
  List.length (described desc_map ids) = List.length ids.
Proof.
  unfold described. induction ids as [|p ids IH]; [reflexivity|]. intros H.
  cbn [flat_map]. rewrite length_app, IH by (intros q Hq; apply H; now right).
  destruct (H p) as [d ->]; [now left|]. reflexivity.
Qed.

Lemma summarize_In desc_map ids r :
  In r (summarize desc_map ids) ->
  In (pathway_id r) ids /\
  desc_map !! pathway_id r = Some (pathway_description r) /\
  KO_count r = count_occ string_dec ids (pathway_id r) /\
  1 <= KO_count r.
Proof.
  intros Hr. unfold summarize in Hr.
  pose proof (group_sizes_positive (described desc_map ids)) as HP.
  rewrite List.Forall_forall in HP. specialize (HP r Hr).
  apply group_sizes_In in Hr as [Hin Hc]. unfold key_of in Hin, Hc.
  apply described_In in Hin as [Hp Hd].
  rewrite (count_occ_described _ _ _ _ Hd) in Hc. auto.
Qed.

Lemma sorted_ids_nodup l :
  key_sorted l ->
  (forall r r', In r l -> In r' l -> pathway_id r = pathway_id r' ->
                pathway_description r = pathway_description r') ->
  List.NoDup (List.map pathway_id l).
Proof.
  unfold key_sorted. induction 1 as [|x t Hs IH Hx]; intros Hd; [constructor|].
  cbn [List.map]. constructor.
  - intros (y & E & Hy)%in_map_iff. rewrite List.Forall_forall in Hx.
    specialize (Hx y Hy).
    assert (key_of y = key_of x) as Ek.
    { unfold key_of. f_equal; [exact E|].
      apply Hd; [now right|now left|exact E]. }
    rewrite Ek in Hx. now apply key_lt_irrefl in Hx.
  - apply IH. intros r r' Hr Hr'. apply Hd; now right.
Qed.

(** X11: the summary of lines 142-146 has its rows in the order of their
    keys and one row per pathway id; each row stands for an id of the
    mapping with the description the enricher gave it and counts the
    edges of that id, at least one; and the counts add up to the number of
    edges that have a description, which is all of them when every id
    has an entry. *)
Theorem summary_has_one_exact_row_per_pathway
    (desc_map : gmap string string) (ids : list string) :
  key_sorted (summarize desc_map ids) /\
  List.NoDup (List.map pathway_id (summarize desc_map ids)) /\
  List.Forall
    (fun r => In (pathway_id r) ids /\
              desc_map !! pathway_id r = Some (pathway_description r) /\
              KO_count r = count_occ string_dec ids (pathway_id r) /\
              1 <= KO_count r)
    (summarize desc_map ids) /\
  list_sum (List.map KO_count (summarize desc_map ids))
  = List.length (described desc_map ids) /\
  ((forall p, In p ids -> is_Some (desc_map !! p)) ->
   list_sum (List.map KO_count (summarize desc_map ids)) = List.length ids).
Proof.
  assert (key_sorted (summarize desc_map ids)) as Hs by apply group_sizes_sorted.
  split; [exact Hs|]. split; [|split; [|split]].
  - apply sorted_ids_nodup; [exact Hs|].
    intros r r' (_ & Hd & _)%summarize_In (_ & Hd' & _)%summarize_In E.
    rewrite E in Hd. congruence.
  - apply List.Forall_forall. intros r. apply summarize_In.
  - apply group_sizes_total.
  - intros H. unfold summarize. rewrite group_sizes_total.
    now apply described_length.
Qed.

(** ** Rows that share a description *)

Lemma drop_duplicates_from_sublist l : forall seen,
  sublist (drop_duplicates_from seen l) l.
Proof.
  induction l as [|r t IH]; intros seen; cbn [drop_duplicates_from].
  - constructor.
  - destruct (mem_string (pathway_description r) seen).
    + apply sublist_cons, IH.
    + apply sublist_skip, IH.
Qed.

Lemma drop_duplicates_from_nodup l : forall seen,
  List.NoDup (List.map pathway_description (drop_duplicates_from seen l)).
Proof.
  induction l as [|r t IH]; intros seen; cbn [drop_duplicates_from].
  - constructor.
  - destruct (mem_string (pathway_description r) seen); [apply IH|].
    cbn [List.map]. constructor; [|apply IH].
    intros (x & E & Hx)%in_map_iff.
    apply drop_duplicates_from_first in Hx as [Hx _]. apply Hx. now left.
Qed.

Lemma drop_duplicates_from_fixed l : forall seen,
  List.NoDup (List.map pathway_description l) ->
  (forall r, In r l -> ~ In (pathway_description r) seen) ->
  drop_duplicates_from seen l = l.
Proof.
  induction l as [|r t IH]; intros seen; [reflexivity|].
  cbn [List.map drop_duplicates_from].
  intros [Hr Ht]%List.NoDup_cons_iff Hs.
  destruct (mem_string (pathway_description r) seen) eqn:E.
  - apply mem_string_In in E. exfalso. apply (Hs r); [now left|exact E].
  - f_equal. apply IH; [exact Ht|].
    intros x Hx [Ex|Hin].
    + apply Hr. rewrite Ex. now apply in_map.
    + apply (Hs x); [now right|exact Hin].
Qed.

(** X12: line 155 only takes rows away.  What stays is a sub-sequence
    of the table, rows and counts as they were, so the count of a row
    that goes is not added to the row that stays; no two rows left share
    a description; a table without a repeated description is left as it
    is, and a second pass changes nothing. *)
Theorem drop_duplicates_only_removes_later_rows (l : list summary_row) :
  sublist (drop_duplicates l) l /\
  List.NoDup (List.map pathway_description (drop_duplicates l)) /\
  (List.NoDup (List.map pathway_description l) -> drop_duplicates l = l) /\
  drop_duplicates (drop_duplicates l) = drop_duplicates l.
Proof.
  unfold drop_duplicates.
  assert (forall t, List.NoDup (List.map pathway_description t) ->
                    drop_duplicates_from [] t = t) as Hfix.
  { intros t Ht. apply drop_duplicates_from_fixed; [exact Ht|]. now intros r _ []. }
  split; [apply drop_duplicates_from_sublist|].
  split; [apply drop_duplicates_from_nodup|].
  split; [apply Hfix|]. apply Hfix, drop_duplicates_from_nodup.
Qed.

(** ** The terms of an exclusion file *)

Lemma isspace_lower c : py_isspace (lower_ascii c) = py_isspace c.
Proof. destruct c as [[] [] [] [] [] [] [] []]; vm_compute; reflexivity. Qed.

Lemma lower_ascii_twice c : lower_ascii (lower_ascii c) = lower_ascii c.
Proof. destruct c as [[] [] [] [] [] [] [] []]; vm_compute; reflexivity. Qed.

Lemma lower_twice s : lower (lower s) = lower s.
Proof.
  induction s as [|c s IH]; [reflexivity|]. cbn [lower].
  now rewrite lower_ascii_twice, IH.
Qed.

Lemma lower_empty s : lower s = "" -> s = "".
Proof. now destruct s. Qed.

Lemma lstrip_lower s : lstrip (lower s) = lower (lstrip s).
Proof.
  induction s as [|c s IH]; [reflexivity|]. cbn [lower lstrip].
  rewrite isspace_lower. now destruct (py_isspace c).
Qed.

Lemma rstrip_lower s : rstrip (lower s) = lower (rstrip s).
Proof.
  induction s as [|c s IH]; [reflexivity|]. cbn [lower rstrip].
  rewrite IH, isspace_lower.
  destruct (rstrip s); cbn [lower]; [now destruct (py_isspace c)|reflexivity].
Qed.

Lemma strip_lower s : strip (lower s) = lower (strip s).
Proof. unfold strip. now rewrite lstrip_lower, rstrip_lower. Qed.

Lemma rstrip_twice s : rstrip (rstrip s) = rstrip s.
Proof.
  induction s as [|c s IH]; [reflexivity|]. cbn [rstrip].
  destruct (rstrip s) as [|d r] eqn:E.
  - destruct (py_isspace c) eqn:Hc; [reflexivity|].
    unfold chr. cbn [rstrip]. now rewrite Hc.
  - cbn [rstrip] in IH |- *. now rewrite IH.
Qed.

(** What [rstrip] leaves begins as the text began. *)
Lemma rstrip_head c s :
  rstrip (String c s) = "" \/ exists r, rstrip (String c s) = String c r.
Proof.
  cbn [rstrip]. destruct (rstrip s).
  - destruct (py_isspace c); [now left|right; now exists ""].
  - right. eauto.
Qed.

Lemma lstrip_head s :
  lstrip s = "" \/ exists c r, lstrip s = String c r /\ py_isspace c = false.
Proof.
  induction s as [|c s IH]; [now left|]. cbn [lstrip].
  destruct (py_isspace c) eqn:Hc; [exact IH|]. right. eauto.
Qed.

Lemma strip_twice s : strip (strip s) = strip s.
Proof.
  unfold strip. destruct (lstrip_head s) as [->|(c & r & -> & Hc)]; [reflexivity|].
  destruct (rstrip_head c r) as [E|[r' E]].
  - rewrite E. reflexivity.
  - rewrite <- (rstrip_twice (String c r)) at 2. f_equal.
    rewrite E. cbn [lstrip]. now rewrite Hc.
Qed.

Lemma universal_newlines_plain content :
  has_char CR content = false -> universal_newlines content = content.
Proof.
  intros H. unfold universal_newlines, replace, chr.
  rewrite (replace_go_absent CR (String NL "") _ content H).
  apply (replace_go_absent CR "" _ content H).
Qed.

(** X13: line 151 hands on no term that is empty, has white space at an
    end or holds a capital letter, whatever the file holds, so a blank
    line never becomes an empty branch of the pattern; and for a file of
    lines without carriage returns the terms are the lines that are not
    blank, stripped and in lower case, in the order of the file. *)
Theorem exclusion_terms_are_stripped_and_lowered :
  (forall content,
      List.Forall (fun t => t <> "" /\ strip t = t /\ lower t = t)
                  (exclude_terms_of content)) /\
  (forall lines,
      lines <> [] ->
      (forall l, In l lines -> has_char NL l = false /\ has_char CR l = false) ->
      exclude_terms_of (join (chr NL) lines)
      = List.map (fun l => lower (strip l))
          (List.filter (fun l => negb (String.eqb (strip l) "")) lines)).
Proof.
  split.
  - intros content. apply List.Forall_forall. unfold exclude_terms_of.
    intros t (l & <- & Hl)%in_map_iff. apply filter_In in Hl as [_ Hl].
    apply negb_true_iff, String.eqb_neq in Hl. split; [|split].
    + intros E. now apply lower_empty in E.
    + now rewrite strip_lower, strip_twice.
    + apply lower_twice.
  - intros lines Hne Hl. unfold exclude_terms_of.
    rewrite universal_newlines_plain.
    + rewrite split_on_join; [reflexivity|exact Hne|]. intros l Hin. now apply Hl.
    + clear Hne. induction lines as [|l [|l' lines] IH]; [reflexivity| |].
      * cbn [join]. apply Hl. now left.
      * change (join (chr NL) (l :: l' :: lines))
          with (l +:+ chr NL +:+ join (chr NL) (l' :: lines)).
        rewrite !has_char_app, IH by (intros x Hx; apply Hl; now right).
        destruct (Hl l) as [_ ->]; [now left|]. reflexivity.
Qed.

(** ** A run of [main], step by step *)

(** Request-and-pause blocks followed by events with at most one request
    among them. *)
Lemma blocks_then_one urls tail :
  requests_made tail <= 1 ->
  delay_between_requests (flat_map request_block urls ++ tail).
Proof.
  intros Htail. induction urls as [|u urls IH]; intros pre u1 mid u2 post E.
  - cbn [flat_map app] in E. subst tail. exfalso.
    rewrite requests_made_app in Htail.
    change (EvGet u1 :: mid ++ EvGet u2 :: post)
      with ([EvGet u1] ++ mid ++ [EvGet u2] ++ post) in Htail.
    rewrite !requests_made_app in Htail.
    change (requests_made [EvGet u1]) with 1 in Htail.
    change (requests_made [EvGet u2]) with 1 in Htail. lia.
  - cbn [flat_map request_block app] in E. destruct pre as [|e pre].
    + cbn [app] in E. injection E as _ E.
      destruct mid as [|e mid]; cbn [app] in E; [discriminate|].
      injection E as <- _. now left.
    + cbn [app] in E. injection E as _ E. destruct pre as [|e' pre].
      * discriminate.
      * cbn [app] in E. injection E as _ E. now apply (IH pre u1 mid u2 post).
Qed.

Lemma requested_app a b : requested (a ++ b) = requested a ++ requested b.
Proof. unfold requested. apply flat_map_app. Qed.

Lemma requested_blocks urls : requested (flat_map request_block urls) = urls.
Proof.
  induction urls as [|u urls IH]; [reflexivity|].
  cbn [flat_map request_block app]. unfold requested in *.
  cbn [flat_map app]. now rewrite IH.
Qed.

Lemma pair_eta {A B} (p : A * B) : p = (fst p, snd p).
Proof. now destruct p. Qed.

Lemma world_eq w w' : fs w = fs w' -> log w = log w' -> w = w'.
Proof. destruct w, w'. cbn. now intros -> ->. Qed.

Section Runs.

Variable kegg : nat -> string -> response.
Variable sort_values : list summary_row -> list summary_row.

(** [main] is [report] behind the reading of the input and the
    resolution pass. *)
Lemma main_unfold a w :
  main kegg sort_values a w
  = match fs w !! input a with
    | None => (Raise (FileNotFoundError (input a)), w)
    | Some content =>
        match read_input content with
        | Raise e => (Raise e, w)
        | Ok df =>
            match fetch_ko_pathway_mapping kegg
                    (ko_list_of (preprocess_input df)) (Some (cache a)) w with
            | (Raise e, w1) => (Raise e, w1)
            | (Ok pathway_df, w1) => report kegg sort_values a pathway_df w1
            end
        end
    end.
Proof.
  unfold main. rewrite bind_run. unfold read_file at 1.
  destruct (fs w !! input a) as [content|]; [|reflexivity].
  rewrite bind_run. unfold lift at 1.
  destruct (read_input content) as [df|e]; [|reflexivity].
  rewrite bind_run.
  destruct (fetch_ko_pathway_mapping _ _ _ _) as [[pathway_df|e] w1];
    reflexivity.
Qed.

Lemma report_unfold a pathway_df w :
  report kegg sort_values a pathway_df w
  = match column pathway_df "pathway_id" with
    | Raise e => (Raise e, w)
    | Ok ids =>
        match fetch_pathway_descriptions kegg (unique ids) w with
        | (Raise e, w1) => (Raise e, w1)
        | (Ok desc_map, w1) =>
            match filter_step (exclude a) (summarize desc_map ids) w1 with
            | (Raise e, w2) => (Raise e, w2)
            | (Ok summary_df, w2) =>
                match write_file (output a)
                        (to_csv (summary_frame (rank sort_values summary_df)))
                        w2 with
                | (Raise e, w3) => (Raise e, w3)
                | (Ok _, w3) =>
                    if plot a
                    then plot_circular_barplot
                           (firstn 20 (rank sort_values summary_df))
                           (plotfile a) w3
                    else (Ok tt, w3)
                end
            end
        end
    end.
Proof.
  unfold report. rewrite bind_run. unfold lift at 1.
  destruct (column pathway_df "pathway_id") as [ids|e]; [|reflexivity].
  rewrite bind_run.
  destruct (fetch_pathway_descriptions _ _ _) as [[desc_map|e] w1];
    [|reflexivity].
  rewrite bind_run.
  destruct (filter_step _ _ _) as [[summary_df|e] w2]; [|reflexivity].
  rewrite bind_run.
  destruct (write_file _ _ _) as [[[]|e] w3]; [|reflexivity].
  now destruct (plot a).
Qed.

(** The resolution pass of [main]: either the cache is read and the
    world stays as it is, or every code is asked for and the cache is
    written. *)
Lemma fetch_effect ko_list path w :
  (path <> "" /\ exists content,
      fs w !! path = Some content /\
      fetch_ko_pathway_mapping kegg ko_list (Some path) w
      = (read_csv content, w)) \/
  ((path = "" \/ fs w !! path = None) /\ exists records,
      fetch_ko_pathway_mapping kegg ko_list (Some path) w
      = (Ok (DataFrame records),
         {| fs := if String.eqb path "" then fs w
                  else <[path := to_csv (DataFrame records)]> (fs w);
            log := log w ++ flat_map request_block
                              (List.map link_url ko_list) |})).
Proof.
  destruct (string_dec path "") as [->|Hpath];
    [|destruct (fs w !! path) as [content|] eqn:Hfile].
  - right. split; [now left|].
    destruct (fetch_live kegg ko_list (Some "") w) as (records & _ & Hres & Hfs);
      [now left|].
    exists records. rewrite (pair_eta (fetch_ko_pathway_mapping _ _ _ _)), Hres.
    f_equal. apply world_eq; [exact Hfs|].
    apply fetch_live_log. now left.
  - left. split; [exact Hpath|]. exists content. split; [reflexivity|].
    now apply fetch_cached.
  - right. split; [now right|].
    destruct (fetch_live kegg ko_list (Some path) w) as (records & _ & Hres & Hfs);
      [now right|].
    exists records. rewrite (pair_eta (fetch_ko_pathway_mapping _ _ _ _)), Hres.
    f_equal. apply world_eq.
    + rewrite Hfs. cbn [truthy fs]. apply String.eqb_neq in Hpath.
      now rewrite Hpath.
    + cbn [log]. apply fetch_live_log. now right.
Qed.

Lemma filter_step_world exclude summary_df w :
  snd (filter_step exclude summary_df w) = w.
Proof.
  unfold filter_step. destruct (truthy exclude); [|reflexivity].
  rewrite bind_run. unfold read_file.
  destruct (fs w !! default "" exclude); [|reflexivity].
  unfold lift. reflexivity.
Qed.

Lemma plot_effect df output_plot w :
  fs (snd (plot_circular_barplot df output_plot w)) = fs w /\
  exists evs,
    log (snd (plot_circular_barplot df output_plot w)) = log w ++ evs /\
    quiet evs /\
    (fst (plot_circular_barplot df output_plot w) = Raise IndexError /\
     df = [] /\ evs = [] \/
     fst (plot_circular_barplot df output_plot w) = Ok tt /\ df <> [] /\
     evs = (if String.eqb output_plot "" then []
            else [EvSavefig output_plot
                    (List.map (fun r => (pathway_description r, KO_count r)) df)])
           ++ [EvShow]).
Proof.
  destruct df as [|r df].
  - split; [reflexivity|]. exists []. cbn. rewrite app_nil_r.
    split; [reflexivity|]. split; [reflexivity|]. now left.
  - unfold plot_circular_barplot. rewrite bind_run.
    destruct (String.eqb output_plot ""); cbn [negb].
    + split; [reflexivity|]. exists [EvShow].
      split; [reflexivity|]. split; [reflexivity|]. right. now repeat split.
    + split; [reflexivity|]. eexists. cbn [emit snd fst log fs].
      split; [now rewrite <- app_assoc|]. split; [reflexivity|].
      right. now repeat split.
Qed.

End Runs.

Section Traces.

Variable kegg : nat -> string -> response.
Variable sort_values : list summary_row -> list summary_row.

(** The ways [report] can end: without the column of pathway ids; in the
    enricher, at a request; at the exclusion file, the pattern or the
    writing of the summary, all requests made; or behind the summary
    written, in the chart step when one is asked for. *)
Lemma report_cases a pathway_df w :
  (exists e, report kegg sort_values a pathway_df w = (Raise e, w)) \/
  exists ids,
    column pathway_df "pathway_id" = Ok ids /\
    ((exists n pw,
         fst (report kegg sort_values a pathway_df w) = Raise IndexError /\
         fs (snd (report kegg sort_values a pathway_df w)) = fs w /\
         log (snd (report kegg sort_values a pathway_df w))
         = log w ++ flat_map request_block
                      (List.map list_url (firstn n (unique ids)))
                 ++ [EvGet (list_url pw)]) \/
     exists desc_map w1,
       fetch_pathway_descriptions kegg (unique ids) w = (Ok desc_map, w1) /\
       fs w1 = fs w /\
       log w1 = log w ++ flat_map request_block (List.map list_url (unique ids)) /\
       ((exists e, report kegg sort_values a pathway_df w = (Raise e, w1)) \/
        exists summary_df,
          filter_step (exclude a) (summarize desc_map ids) w1
          = (Ok summary_df, w1) /\
          output a <> "" /\
          report kegg sort_values a pathway_df w
          = (if plot a
             then plot_circular_barplot
                    (firstn 20 (rank sort_values summary_df)) (plotfile a)
             else mret tt)
              {| fs := <[output a := to_csv (summary_frame
                                               (rank sort_values summary_df))]>
                         (fs w1);
                 log := log w1 |})).
Proof.
  rewrite report_unfold.
  destruct (column pathway_df "pathway_id") as [ids|e]; [|left; eauto].
  right. exists ids. split; [reflexivity|].
  destruct (describe_run kegg (unique ids) ∅ w) as [Hfs (n & tail & Hlog & Hres)].
  fold (fetch_pathway_descriptions kegg (unique ids)) in Hfs, Hlog, Hres.
  destruct (fetch_pathway_descriptions kegg (unique ids) w)
    as [[desc_map|e] w1] eqn:Hd; cbn [fst snd] in Hfs, Hlog, Hres.
  - right. exists desc_map, w1. split; [reflexivity|]. split; [exact Hfs|].
    destruct Hres as [(m & _ & -> & ->) | (He & _)]; [|discriminate].
    rewrite firstn_all, app_nil_r in Hlog. split; [exact Hlog|].
    pose proof (filter_step_world (exclude a) (summarize desc_map ids) w1) as Hw.
    destruct (filter_step (exclude a) (summarize desc_map ids) w1)
      as [[summary_df|e] w2]; cbn [snd] in Hw; subst w2; [|left; eauto].
    unfold write_file. destruct (String.eqb (output a) "") eqn:Ho; [left; eauto|].
    right. exists summary_df. split; [reflexivity|].
    split; [now apply String.eqb_neq|]. now destruct (plot a).
  - left. destruct Hres as [(m & Hm & _) | (He & pw & _ & ->)]; [discriminate|].
    injection He as ->. exists n, pw. cbn [fst snd]. auto.
Qed.

(** The ways [main] can reach [report]: from the cache, the world as it
    was, or from a live pass, the codes asked for and the cache
    written. *)
Lemma main_cases a w :
  (exists e, main kegg sort_values a w = (Raise e, w)) \/
  exists content df pathway_df w0,
    fs w !! input a = Some content /\ read_input content = Ok df /\
    fetch_ko_pathway_mapping kegg (ko_list_of (preprocess_input df))
      (Some (cache a)) w = (Ok pathway_df, w0) /\
    main kegg sort_values a w = report kegg sort_values a pathway_df w0 /\
    ((cache a <> "" /\ is_Some (fs w !! cache a) /\ w0 = w) \/
     ((cache a = "" \/ fs w !! cache a = None) /\
      fs w0 = (if String.eqb (cache a) "" then fs w
               else <[cache a := to_csv pathway_df]> (fs w)) /\
      log w0 = log w ++ flat_map request_block
                          (List.map link_url
                             (ko_list_of (preprocess_input df))))).
Proof.
  rewrite main_unfold.
  destruct (fs w !! input a) as [content|] eqn:Hin; [|left; eauto].
  destruct (read_input content) as [df|e] eqn:Hdf; [|left; eauto].
  destruct (fetch_effect kegg (ko_list_of (preprocess_input df)) (cache a) w)
    as [(Hc & cached & Hfile & Hfetch) | (Hlive & records & Hfetch)];
    rewrite Hfetch.
  - destruct (read_csv cached) as [pathway_df|e] eqn:Hcsv; [|left; eauto].
    right. exists content, df, pathway_df, w.
    split; [reflexivity|]. split; [exact Hdf|].
    split; [exact Hfetch|].
    split; [reflexivity|]. left. split; [exact Hc|]. split; [eauto|reflexivity].
  - right. eexists content, df, _, _.
    split; [reflexivity|]. split; [exact Hdf|]. split; [exact Hfetch|].
    split; [reflexivity|]. right. split; [exact Hlive|].
    cbn [fs log]. split; reflexivity.
Qed.

Lemma quiet_requested evs : quiet evs -> requested evs = [].
Proof.
  unfold quiet, requests_made, requested.
  induction evs as [|e evs IH]; [reflexivity|].
  destruct e; cbn [List.filter is_get List.length flat_map app]; auto.
  discriminate.
Qed.

End Traces.

Section Traces_of_runs.

Variable kegg : nat -> string -> response.
Variable sort_values : list summary_row -> list summary_row.

(** What [report] adds to the log: a block per pathway id asked for,
    then at most one request left without its pause. *)
Lemma report_trace a pathway_df w :
  exists pws tail,
    log (snd (report kegg sort_values a pathway_df w))
    = log w ++ flat_map request_block (List.map list_url pws) ++ tail /\
    requests_made tail <= 1 /\
    (fst (report kegg sort_values a pathway_df w) = Ok tt ->
     quiet tail /\
     exists ids, column pathway_df "pathway_id" = Ok ids /\ pws = unique ids).
Proof.
  destruct (report_cases kegg sort_values a pathway_df w)
    as [[e ->] | (ids & Hids & [(n & pw & He & _ & Hlog) |
                                (desc_map & w1 & _ & _ & Hlog1 & Hrest)])].
  - exists [], []. cbn. rewrite app_nil_r. repeat split; auto. discriminate.
  - exists (firstn n (unique ids)), [EvGet (list_url pw)].
    split; [exact Hlog|]. split; [reflexivity|]. rewrite He. discriminate.
  - destruct Hrest as [[e ->] | (summary_df & _ & _ & ->)].
    + exists (unique ids), []. cbn [fst snd]. rewrite app_nil_r.
      split; [exact Hlog1|]. split; [cbn; lia|]. discriminate.
    + destruct (plot a).
      * destruct (plot_effect (firstn 20 (rank sort_values summary_df))
                    (plotfile a)
                    {| fs := <[output a := to_csv (summary_frame
                                            (rank sort_values summary_df))]>
                               (fs w1);
                       log := log w1 |})
          as [_ (evs & Hlog & Hq & _)].
        exists (unique ids), evs. rewrite Hlog. cbn [log].
        rewrite Hlog1, <- app_assoc. split; [reflexivity|].
        split; [unfold quiet in Hq; lia|]. intros _. split; [exact Hq|]. eauto.
      * exists (unique ids), []. cbn [mret M_ret fst snd log].
        rewrite app_nil_r. split; [exact Hlog1|]. split; [cbn; lia|].
        intros _. split; [reflexivity|]. eauto.
Qed.

(** What a run adds to the log: a block per code asked for, a block per
    pathway id asked for, then at most one request left without its
    pause; and where the codes and the ids come from when the run
    completes. *)
Lemma main_trace a w :
  exists codes pws tail,
    log (snd (main kegg sort_values a w))
    = log w ++ flat_map request_block
                 (List.map link_url codes ++ List.map list_url pws) ++ tail /\
    requests_made tail <= 1 /\
    (fst (main kegg sort_values a w) = Ok tt ->
     quiet tail /\
     exists content df pathway_df ids,
       fs w !! input a = Some content /\ read_input content = Ok df /\
       fst (fetch_ko_pathway_mapping kegg (ko_list_of (preprocess_input df))
              (Some (cache a)) w) = Ok pathway_df /\
       column pathway_df "pathway_id" = Ok ids /\
       codes = (if cache_found a w then []
                else ko_list_of (preprocess_input df)) /\
       pws = unique ids).
Proof.
  destruct (main_cases kegg sort_values a w)
    as [[e ->] | (content & df & pathway_df & w0 & Hin & Hdf & Hfetch & -> & Hw0)].
  - exists [], [], []. cbn. rewrite app_nil_r. repeat split; auto. discriminate.
  - destruct (report_trace a pathway_df w0) as (pws & tail & Hlog & Htail & Hok).
    exists (if cache_found a w then [] else ko_list_of (preprocess_input df)),
      pws, tail.
    assert (log w0 = log w ++ flat_map request_block
                               (List.map link_url
                                  (if cache_found a w then []
                                   else ko_list_of (preprocess_input df))))
      as Hlog0.
    { unfold cache_found. cbn [truthy].
      destruct Hw0 as [(Hc & Hsome & ->) | ([Hc|Hnone] & _ & Hl)].
      - apply String.eqb_neq in Hc. rewrite Hc, bool_decide_eq_true_2 by exact Hsome.
        cbn. now rewrite app_nil_r.
      - rewrite Hc. exact Hl.
      - rewrite bool_decide_eq_false_2, andb_false_r; [exact Hl|].
        intros [x Hx]. congruence. }
    split; [|split; [exact Htail|]].
    + rewrite Hlog, Hlog0, flat_map_app, <- !app_assoc. reflexivity.
    + intros Hmain. destruct (Hok Hmain) as (Hq & ids & Hids & ->).
      split; [exact Hq|]. exists content, df, pathway_df, ids.
      rewrite Hfetch. repeat split; auto.
Qed.

End Traces_of_runs.

(** X14: in every run of [main], whether it completes or raises and
    whether it reads the cache or not, a pause of 200 ms lies between
    any two requests it makes, those of the two loops taken together. *)
Theorem a_run_pauses_between_any_two_requests
    (kegg : nat -> string -> response)
    (sort_values : list summary_row -> list summary_row)
    (a : args) (w : world) :
  exists evs,
    log (snd (main kegg sort_values a w)) = log w ++ evs /\
    delay_between_requests evs.
Proof.
  destruct (main_trace kegg sort_values a w)
    as (codes & pws & tail & Hlog & Htail & _).
  eexists. split; [exact Hlog|]. now apply blocks_then_one.
Qed.

(** X15: a run that completes has asked the service, in this order, for
    the pathways of each distinct code of the input (for none of them
    when it found the cache) and then for the description of each
    distinct pathway id of the mapping, and for nothing else. *)
Theorem a_completed_run_asks_once_per_code_and_pathway
    (kegg : nat -> string -> response)
    (sort_values : list summary_row -> list summary_row)
    (a : args) (w : world) :
  fst (main kegg sort_values a w) = Ok tt ->
  exists content df pathway_df ids,
    fs w !! input a = Some content /\ read_input content = Ok df /\
    fst (fetch_ko_pathway_mapping kegg (ko_list_of (preprocess_input df))
           (Some (cache a)) w) = Ok pathway_df /\
    column pathway_df "pathway_id" = Ok ids /\
    requested (log (snd (main kegg sort_values a w)))
    = requested (log w)
      ++ List.map link_url (if cache_found a w then []
                            else ko_list_of (preprocess_input df))
      ++ List.map list_url (unique ids).
Proof.
  intros Hmain.
  destruct (main_trace kegg sort_values a w)
    as (codes & pws & tail & Hlog & _ & Hok).
  destruct (Hok Hmain)
    as (Hq & content & df & pathway_df & ids & Hin & Hdf & Hf & Hids & -> & ->).
  exists content, df, pathway_df, ids. repeat split; auto.
  rewrite Hlog, !requested_app, requested_blocks, (quiet_requested _ Hq).
  now rewrite app_nil_r.
Qed.

(** The input holds K00001 and the cache is in place: the run completes,
    so its requests are those for the descriptions of the pathway ids of
    the cache. *)
Lemma a_completed_run_asks_once_per_code_and_pathway_witness :
  exists content df pathway_df ids,
    fs wider_cache_world !! input plain_args = Some content /\
    read_input content = Ok df /\
    fst (fetch_ko_pathway_mapping glycolysis_service
           (ko_list_of (preprocess_input df))
           (Some (cache plain_args)) wider_cache_world) = Ok pathway_df /\
    column pathway_df "pathway_id" = Ok ids /\
    requested (log (snd (main glycolysis_service stable_sort plain_args
                           wider_cache_world)))
    = requested (log wider_cache_world)
      ++ List.map link_url (if cache_found plain_args wider_cache_world then []
                            else ko_list_of (preprocess_input df))
      ++ List.map list_url (unique ids).
Proof.
  apply (a_completed_run_asks_once_per_code_and_pathway glycolysis_service
           stable_sort plain_args wider_cache_world).
  reflexivity.
Defined.

Section Ends_of_runs.

Variable kegg : nat -> string -> response.
Variable sort_values : list summary_row -> list summary_row.

Lemma firstn_empty {A} n (l : list A) : firstn (S n) l = [] -> l = [].
Proof. now destruct l. Qed.

(** A [report] that raises has written nothing, unless it is the chart
    step that raised, on a summary without rows. *)
Lemma report_raise a pathway_df w e :
  fst (report kegg sort_values a pathway_df w) = Raise e ->
  fs (snd (report kegg sort_values a pathway_df w)) = fs w \/
  (plot a = true /\ e = IndexError /\
   fs (snd (report kegg sort_values a pathway_df w))
   = <[output a := summary_header]> (fs w)).
Proof.
  destruct (report_cases kegg sort_values a pathway_df w)
    as [[e' ->] | (ids & Hids & [(n & pw & He & Hfs & _) |
                                 (desc_map & w1 & _ & Hfs1 & _ & Hrest)])].
  - now left.
  - now left.
  - destruct Hrest as [[e' ->] | (summary_df & _ & _ & ->)]; [now left|].
    destruct (plot a); [|discriminate].
    set (w2 := {| fs := _; log := _ |}).
    destruct (plot_effect (firstn 20 (rank sort_values summary_df)) (plotfile a) w2)
      as [Hfs (evs & _ & _ & [(He & Hnil & _) | (Hok & _)])].
    + intros E. right. split; [reflexivity|]. split; [congruence|].
      rewrite Hfs. unfold w2. cbn [fs]. rewrite Hfs1.
      apply firstn_empty in Hnil. now rewrite Hnil.
    + rewrite Hok. discriminate.
Qed.

(** A [report] that completes: what it asked for, what it wrote and what
    it drew. *)
Lemma report_ok a pathway_df w :
  fst (report kegg sort_values a pathway_df w) = Ok tt ->
  exists ids desc_map w1 summary_df,
    column pathway_df "pathway_id" = Ok ids /\
    fetch_pathway_descriptions kegg (unique ids) w = (Ok desc_map, w1) /\
    filter_step (exclude a) (summarize desc_map ids) w1 = (Ok summary_df, w1) /\
    fs (snd (report kegg sort_values a pathway_df w))
    = <[output a := to_csv (summary_frame (rank sort_values summary_df))]> (fs w) /\
    log (snd (report kegg sort_values a pathway_df w))
    = log w ++ flat_map request_block (List.map list_url (unique ids))
            ++ (if plot a
                then chart_events (firstn 20 (rank sort_values summary_df))
                                  (plotfile a)
                else []) /\
    (plot a = true -> rank sort_values summary_df <> []) /\
    log w1 = log w ++ flat_map request_block (List.map list_url (unique ids)).
Proof.
  destruct (report_cases kegg sort_values a pathway_df w)
    as [[e' ->] | (ids & Hids & [(n & pw & He & _) |
                                 (desc_map & w1 & Hd & Hfs1 & Hlog1 & Hrest)])];
    [discriminate|rewrite He; discriminate|].
  destruct Hrest as [[e' ->] | (summary_df & Hf & _ & ->)]; [discriminate|].
  intros Hok. exists ids, desc_map, w1, summary_df.
  split; [exact Hids|]. split; [exact Hd|]. split; [exact Hf|].
  destruct (plot a).
  - set (w2 := {| fs := _; log := _ |}) in *.
    destruct (plot_effect (firstn 20 (rank sort_values summary_df)) (plotfile a) w2)
      as [Hfs (evs & Hlog & _ & [(He & _) | (_ & Hne & ->)])]; [congruence|].
    rewrite Hfs, Hlog. unfold w2. cbn [fs log]. rewrite Hfs1, Hlog1.
    split; [reflexivity|]. split; [now rewrite <- app_assoc|].
    split; [|reflexivity]. intros _ E. apply Hne. now rewrite E.
  - cbn [mret M_ret fst snd fs log]. rewrite Hfs1, Hlog1, app_nil_r.
    split; [reflexivity|]. split; [reflexivity|]. split; [discriminate|reflexivity].
Qed.

(** Where a run that reached [report] stands: the files as they were,
    the cache apart. *)
Lemma reached_report_fs a w w0 pathway_df p :
  (cache a <> "" /\ is_Some (fs w !! cache a) /\ w0 = w) \/
  ((cache a = "" \/ fs w !! cache a = None) /\
   fs w0 = (if String.eqb (cache a) "" then fs w
            else <[cache a := to_csv pathway_df]> (fs w)) /\
   log w0 = log w ++ flat_map request_block
                       (List.map link_url p)) ->
  forall q, q <> cache a -> fs w0 !! q = fs w !! q.
Proof.
  intros [(_ & _ & ->) | (_ & Hfs & _)] q Hq; [reflexivity|].
  rewrite Hfs. destruct (String.eqb (cache a) ""); [reflexivity|].
  now apply lookup_insert_ne.
Qed.

End Ends_of_runs.

(** X16: a run without [--plot] that raises leaves the summary file as
    it found it: everything that can raise stands in front of line 159.
    (The summary and the cache are taken to be different files; the
    writing of a file is taken to succeed or to leave no file.) *)
Theorem a_failed_run_leaves_no_partial_summary
    (kegg : nat -> string -> response)
    (sort_values : list summary_row -> list summary_row)
    (a : args) (w : world) (e : exn) :
  fst (main kegg sort_values a w) = Raise e ->
  plot a = false ->
  output a <> cache a ->
  fs (snd (main kegg sort_values a w)) !! output a = fs w !! output a.
Proof.
  intros Hmain Hplot Hout.
  destruct (main_cases kegg sort_values a w)
    as [[e' Hm] | (content & df & pathway_df & w0 & _ & _ & _ & Hm & Hw0)];
    rewrite Hm in *; [reflexivity|].
  pose proof (reached_report_fs a w w0 pathway_df _ Hw0 (output a) Hout) as Hfs0.
  destruct (report_raise kegg sort_values a pathway_df w0 e Hmain)
    as [Hfs | (Hp & _)]; [now rewrite Hfs|congruence].
Qed.

(** The exclusion file named on the command line is missing: the run
    raises after its requests, and no summary is written. *)
Lemma a_failed_run_leaves_no_partial_summary_witness :
  fst (main glycolysis_service stable_sort (excluded_args false)
         no_exclusion_file_world)
  = Raise (FileNotFoundError "exclude.txt") /\
  fs (snd (main glycolysis_service stable_sort (excluded_args false)
             no_exclusion_file_world)) !! "kegg_pathway_summary.tsv"
  = None.
Proof.
  split; [reflexivity|].
  apply (a_failed_run_leaves_no_partial_summary glycolysis_service stable_sort
           (excluded_args false) no_exclusion_file_world
           (FileNotFoundError "exclude.txt")).
  - reflexivity.
  - reflexivity.
  - discriminate.
Defined.

(** X17: a run that completes has written, as its summary, the table of
    lines 142-156: the grouping of the pathway ids of the mapping under
    the descriptions the enricher returned, what the exclusion lets
    through of it, one row per description, in the order [sort_values]
    gives.  When a chart was asked for, the bars handed to it are the
    first 20 rows of that table, in its order, and the table is not
    empty; without [--plot] nothing is drawn; and nothing is requested
    after the enricher has returned.  The chart is recorded as an event,
    not as a file, so the statement is made for runs whose chart does not
    go to the path of the summary. *)
Theorem a_completed_run_charts_the_head_of_its_summary
    (kegg : nat -> string -> response)
    (sort_values : list summary_row -> list summary_row)
    (a : args) (w : world) :
  fst (main kegg sort_values a w) = Ok tt ->
  plot a = false \/ plotfile a <> output a ->
  exists content df pathway_df w0 ids desc_map w1 summary_df,
    fs w !! input a = Some content /\ read_input content = Ok df /\
    fetch_ko_pathway_mapping kegg (ko_list_of (preprocess_input df))
      (Some (cache a)) w = (Ok pathway_df, w0) /\
    column pathway_df "pathway_id" = Ok ids /\
    fetch_pathway_descriptions kegg (unique ids) w0 = (Ok desc_map, w1) /\
    filter_step (exclude a) (summarize desc_map ids) w1 = (Ok summary_df, w1) /\
    fs (snd (main kegg sort_values a w)) !! output a
    = Some (to_csv (summary_frame (sort_values (drop_duplicates summary_df)))) /\
    log (snd (main kegg sort_values a w))
    = log w1
      ++ (if plot a
          then chart_events
                 (firstn 20 (sort_values (drop_duplicates summary_df)))
                 (plotfile a)
          else []) /\
    (plot a = true -> sort_values (drop_duplicates summary_df) <> []).
Proof.
  intros Hmain _.
  destruct (main_cases kegg sort_values a w)
    as [[e' Hm] | (content & df & pathway_df & w0 & Hin & Hdf & Hf & Hm & _)];
    rewrite Hm in *; [discriminate|].
  destruct (report_ok kegg sort_values a pathway_df w0 Hmain)
    as (ids & desc_map & w1 & summary_df & Hids & Hd & Hx & Hfs & Hlog & Hne
        & Hlog1).
  unfold rank in Hfs, Hlog, Hne.
  exists content, df, pathway_df, w0, ids, desc_map, w1, summary_df.
  split; [exact Hin|]. split; [exact Hdf|]. split; [exact Hf|].
  split; [exact Hids|]. split; [exact Hd|]. split; [exact Hx|].
  split; [rewrite Hfs; apply lookup_insert_eq|]. split; [|exact Hne].
  rewrite Hlog, Hlog1, <- app_assoc. reflexivity.
Qed.

(** The cache holds three edges in two pathways; with [--plot] the run
    completes, and the chart gets the two rows of its summary. *)
Lemma a_completed_run_charts_the_head_of_its_summary_witness :
  exists content df pathway_df w0 ids desc_map w1 summary_df,
    fs wider_cache_world !! input plot_args = Some content /\
    read_input content = Ok df /\
    fetch_ko_pathway_mapping glycolysis_service
      (ko_list_of (preprocess_input df))
      (Some (cache plot_args)) wider_cache_world = (Ok pathway_df, w0) /\
    column pathway_df "pathway_id" = Ok ids /\
    fetch_pathway_descriptions glycolysis_service (unique ids) w0
    = (Ok desc_map, w1) /\
    filter_step (exclude plot_args) (summarize desc_map ids) w1
    = (Ok summary_df, w1) /\
    fs (snd (main glycolysis_service stable_sort plot_args wider_cache_world))
       !! output plot_args
    = Some (to_csv (summary_frame (stable_sort (drop_duplicates summary_df)))) /\
    log (snd (main glycolysis_service stable_sort plot_args wider_cache_world))
    = log w1
      ++ (if plot plot_args
          then chart_events
                 (firstn 20 (stable_sort (drop_duplicates summary_df)))
                 (plotfile plot_args)
          else []) /\
    (plot plot_args = true -> stable_sort (drop_duplicates summary_df) <> []).
Proof.
  apply (a_completed_run_charts_the_head_of_its_summary glycolysis_service
           stable_sort plot_args wider_cache_world).
  - reflexivity.
  - right. discriminate.
Defined.

(** ** From the text of the input file to the records *)

Lemma code_char_false c :
  code_char c = false ->
  is_digit c = false /\ c <> "K"%char /\ Ascii.eqb c "k" = false /\
  Ascii.eqb c "o" = false /\ Ascii.eqb c ":" = false /\ Ascii.eqb c "," = false.
Proof.
  unfold code_char. cbn [existsb]. rewrite !orb_false_iff.
  intros (Hd & HK & Hk & Ho & Hc & Hm & _). repeat split; auto.
  now apply Ascii.eqb_neq.
Qed.

Lemma listed_chars c p :
  is_ko_code (snd p) = true -> code_char c = false -> has_char c (listed p) = false.
Proof.
  intros Hp (Hd & HK & Hk & Ho & Hc & _)%code_char_false.
  pose proof (is_ko_code_chars _ c Hp Hd HK) as Hno.
  unfold listed. destruct (fst p); [|exact Hno].
  change ("ko:" +:+ snd p) with (String "k" (String "o" (String ":" (snd p)))).
  now rewrite !has_char_cons, Hk, Ho, Hc, Hno.
Qed.

Lemma field_chars c pieces :
  forallb (fun p => is_ko_code (snd p)) pieces = true -> code_char c = false ->
  has_char c (join "," (List.map listed pieces)) = false.
Proof.
  intros Hok Hc. induction pieces as [|p [|q pieces] IH]; [reflexivity| |].
  - cbn [forallb] in Hok. apply andb_true_iff in Hok as [Hp _].
    cbn [List.map join]. now apply listed_chars.
  - cbn [forallb] in Hok, IH. apply andb_true_iff in Hok as [Hp Hrest].
    change (join "," (List.map listed (p :: q :: pieces)))
      with (listed p +:+ String "," (join "," (List.map listed (q :: pieces)))).
    rewrite has_char_app, has_char_cons, (listed_chars c p Hp Hc), (IH Hrest).
    apply code_char_false in Hc as (_ & _ & _ & _ & _ & ->). reflexivity.
Qed.

Lemma space_not_code_char c : py_isspace c = true -> code_char c = false.
Proof.
  destruct c as [[] [] [] [] [] [] [] []]; vm_compute; intros H;
    try discriminate H; reflexivity.
Qed.

Lemma no_space_intro s :
  (forall c, py_isspace c = true -> has_char c s = false) -> no_space s = true.
Proof.
  induction s as [|x s IH]; [reflexivity|]. intros H. cbn [no_space].
  apply andb_true_iff. split.
  - destruct (py_isspace x) eqn:Hx; [|reflexivity].
    specialize (H x Hx). rewrite has_char_cons, Ascii.eqb_refl in H. discriminate.
  - apply IH. intros c Hc. specialize (H c Hc).
    rewrite has_char_cons in H. now apply orb_false_iff in H.
Qed.

Lemma field_head pieces :
  pieces <> [] -> forallb (fun p => is_ko_code (snd p)) pieces = true ->
  exists c rest,
    join "," (List.map listed pieces) = String c rest /\
    (c = "K"%char \/ c = "k"%char).
Proof.
  destruct pieces as [|p pieces]; [contradiction|]. intros _.
  cbn [forallb]. intros [Hp _]%andb_true_iff.
  assert (exists c s, listed p = String c s /\ (c = "K"%char \/ c = "k"%char))
    as (c & s & E & Hc).
  { unfold listed. destruct (fst p).
    - exists "k"%char, ("o:" +:+ snd p). split; [reflexivity|now right].
    - destruct (snd p) as [|c [|d1 [|d2 [|d3 [|d4 [|d5 [|x k]]]]]]];
        try discriminate.
      cbn [is_ko_code] in Hp. rewrite !andb_true_iff in Hp.
      destruct Hp as [[[[[HK _] _] _] _] _]. apply Ascii.eqb_eq in HK.
      eexists _, _. split; [reflexivity|]. now left. }
  cbn [List.map]. destruct (List.map listed pieces) as [|q qs]; cbn [join];
    rewrite E, ?app_String; eauto.
Qed.

(** A field of listed codes is read as text. *)
Lemma field_is_text pieces :
  pieces <> [] -> forallb (fun p => is_ko_code (snd p)) pieces = true ->
  mem_string (join "," (List.map listed pieces)) na_values = false /\
  plain_cell (join "," (List.map listed pieces)) = true.
Proof.
  intros Hne Hok.
  assert (no_space (join "," (List.map listed pieces)) = true) as Hns.
  { apply no_space_intro. intros c Hc.
    apply field_chars; [exact Hok|now apply space_not_code_char]. }
  destruct (field_head pieces Hne Hok) as (c & rest & E & Hc).
  rewrite E in *.
  assert (strip (String c rest) = String c rest) as Hstrip.
  { unfold strip.
    assert (lstrip (String c rest) = String c rest) as ->.
    { cbn [lstrip no_space] in *. apply andb_true_iff in Hns as [H _].
      apply negb_true_iff in H. now rewrite H. }
    now apply rstrip_no_space. }
  unfold plain_cell. rewrite Hstrip, String.eqb_refl.
  destruct Hc as [-> | ->]; split; reflexivity.
Qed.

Lemma input_row_listed g pieces :
  plain_cell g = true ->
  pieces <> [] -> forallb (fun p => is_ko_code (snd p)) pieces = true ->
  input_row [g; join "," (List.map listed pieces)]
  = Ok {| gene := g; ko_raw := Some (join "," (List.map listed pieces)) |}.
Proof.
  intros Hg Hne Hok. destruct (field_is_text pieces Hne Hok) as [Hna Hplain].
  unfold input_row. now rewrite Hg, Hna, Hplain.
Qed.

Lemma ascii_text_app a b : ascii_text (a +:+ b) = ascii_text a && ascii_text b.
Proof.
  induction a as [|c a IH]; [reflexivity|].
  rewrite app_String. cbn [ascii_text]. now rewrite IH, andb_assoc.
Qed.

Lemma is_digit_ascii c : is_digit c = true -> (nat_of_ascii c <? 128) = true.
Proof.
  unfold is_digit. intros [_ H]%andb_true_iff.
  apply Nat.leb_le in H. apply Nat.ltb_lt. lia.
Qed.

Lemma is_ko_code_ascii k : is_ko_code k = true -> ascii_text k = true.
Proof.
  destruct k as [|c [|d1 [|d2 [|d3 [|d4 [|d5 [|x k]]]]]]]; try discriminate.
  cbn [is_ko_code]. intros Hk.
  apply andb_true_iff in Hk as [Hk H5]. apply andb_true_iff in Hk as [Hk H4].
  apply andb_true_iff in Hk as [Hk H3]. apply andb_true_iff in Hk as [Hk H2].
  apply andb_true_iff in Hk as [Hk H1]. apply Ascii.eqb_eq in Hk. subst c.
  cbn [ascii_text].
  rewrite (is_digit_ascii d1 H1), (is_digit_ascii d2 H2), (is_digit_ascii d3 H3),
    (is_digit_ascii d4 H4), (is_digit_ascii d5 H5).
  reflexivity.
Qed.

Lemma field_ascii pieces :
  forallb (fun p => is_ko_code (snd p)) pieces = true ->
  ascii_text (join "," (List.map listed pieces)) = true.
Proof.
  assert (forall p, is_ko_code (snd p) = true -> ascii_text (listed p) = true)
    as Hp.
  { intros p Hk. unfold listed. destruct (fst p); [|now apply is_ko_code_ascii].
    now rewrite ascii_text_app, (is_ko_code_ascii _ Hk). }
  intros Hok. induction pieces as [|p [|q pieces] IH]; [reflexivity| |].
  - cbn [forallb] in Hok. apply andb_true_iff in Hok as [Hk _].
    cbn [List.map join]. now apply Hp.
  - cbn [forallb] in Hok, IH. apply andb_true_iff in Hok as [Hk Hrest].
    change (join "," (List.map listed (p :: q :: pieces)))
      with (listed p +:+ "," +:+ join "," (List.map listed (q :: pieces))).
    now rewrite !ascii_text_app, (Hp p Hk), (IH Hrest).
Qed.

Section Input_files.

Variable genes : list (string * list (bool * string)).

Hypothesis genes_ok :
  forall r, In r genes ->
    solid (fst r) = true /\ plain_cell (fst r) = true /\
    ascii_text (fst r) = true /\ has_char DQUOTE (fst r) = false /\
    snd r <> [] /\ forallb (fun p => is_ko_code (snd p)) (snd r) = true.

Lemma input_text_has_no c :
  py_isspace c = true /\ Ascii.eqb c TAB = false /\ Ascii.eqb c NL = false \/
  c = DQUOTE ->
  has_char c (input_text genes) = false.
Proof using genes_ok.
  intros Hc.
  assert (code_char c = false) as Hcode.
  { destruct Hc as [(Hs & _) | ->]; [now apply space_not_code_char|reflexivity]. }
  assert (Ascii.eqb c TAB = false /\ Ascii.eqb c NL = false) as [Ht Hn].
  { destruct Hc as [(_ & H)| ->]; [exact H|split; reflexivity]. }
  unfold input_text, answer_lines.
  induction genes as [|r rows IH]; [reflexivity|].
  cbn [List.map]. rewrite concat_empty_cons, has_char_app, IH
    by (intros x Hx; apply genes_ok; now right).
  destruct (genes_ok r) as (Hg & _ & _ & Hq & _ & Hok); [now left|].
  unfold line. cbn [join]. unfold chr.
  rewrite !has_char_app, !has_char_cons, Ht, Hn, (field_chars c _ Hok Hcode).
  assert (has_char c (fst r) = false) as ->; [|reflexivity].
  destruct Hc as [(Hs & _) | ->]; [now apply solid_no|exact Hq].
Qed.

Lemma input_text_ascii : ascii_text (input_text genes) = true.
Proof using genes_ok.
  unfold input_text, answer_lines.
  induction genes as [|r rows IH]; [reflexivity|].
  cbn [List.map]. rewrite concat_empty_cons, ascii_text_app, IH
    by (intros x Hx; apply genes_ok; now right).
  destruct (genes_ok r) as (_ & _ & Ha & _ & _ & Hok); [now left|].
  unfold line. cbn [join].
  now rewrite !ascii_text_app, Ha, (field_ascii _ Hok).
Qed.

Lemma input_text_lines :
  table_lines (input_text genes)
  = List.map (fun r => [fst r; join "," (List.map listed (snd r))]) genes.
Proof using genes_ok.
  unfold input_text, answer_lines.
  induction genes as [|r rows IH]; [reflexivity|].
  cbn [List.map]. rewrite concat_empty_cons.
  destruct (genes_ok r) as (Hg & _ & _ & _ & _ & Hok); [now left|].
  unfold line at 1. rewrite table_lines_record.
  - rewrite IH by (intros x Hx; apply genes_ok; now right). f_equal.
    apply split_on_join; [discriminate|].
    intros x [<-|[<-|[]]]; [now apply solid_no|].
    apply field_chars; [exact Hok|reflexivity].
  - cbn [join]. unfold chr.
    rewrite !has_char_app, !has_char_cons, (solid_no NL _ Hg) by reflexivity.
    rewrite (field_chars NL _ Hok) by reflexivity. reflexivity.
  - cbn [join]. apply solid_parts in Hg as [Hne _].
    destruct (fst r); [contradiction|]. now rewrite app_String.
Qed.

Lemma input_rows_collected :
  collect (List.map input_row
             (List.map (fun r => [fst r; join "," (List.map listed (snd r))])
                       genes))
  = Ok (List.map (fun r => {| gene := fst r;
                              ko_raw := Some (join "," (List.map listed (snd r))) |})
                 genes).
Proof using genes_ok.
  induction genes as [|r rows IH]; [reflexivity|].
  destruct (genes_ok r) as (_ & Hp & _ & _ & Hne & Hok); [now left|].
  cbn [List.map collect]. rewrite (input_row_listed _ _ Hp Hne Hok).
  now rewrite IH by (intros x Hx; apply genes_ok; now right).
Qed.

Lemma listed_rows_normalized :
  preprocess_input
    (List.map (fun r => {| gene := fst r;
                           ko_raw := Some (join "," (List.map listed (snd r))) |})
              genes)
  = flat_map (fun r => List.map (fun p => {| rec_gene := fst r; ko := snd p |})
                                (snd r))
             genes.
Proof using genes_ok.
  induction genes as [|r rows IH]; [reflexivity|].
  destruct (genes_ok r) as (_ & _ & _ & _ & _ & Hok); [now left|].
  cbn [List.map flat_map].
  change (?x :: List.map ?f rows) with ([x] ++ List.map f rows).
  rewrite preprocess_input_app, (preprocess_input_listed _ _ Hok).
  now rewrite IH by (intros x Hx; apply genes_ok; now right).
Qed.

End Input_files.

(** X18: an input file of ASCII text with one line per gene (the gene, a
    name without white space or quote that [read_csv] keeps as text, so
    not a number and not one of its markers of a missing value; a tab;
    and a non-empty comma-separated list of codes of the shape K and five
    digits, each with or without [ko:]) is read and normalized to one
    record per listed code, gene by gene in the order of the file and
    code by code in the order of each line. *)
Theorem an_input_file_gives_a_record_per_listed_code
    (genes : list (string * list (bool * string))) :
  (forall r, In r genes ->
     solid (fst r) = true /\ plain_cell (fst r) = true /\
     ascii_text (fst r) = true /\ has_char DQUOTE (fst r) = false /\
     snd r <> [] /\ forallb (fun p => is_ko_code (snd p)) (snd r) = true) ->
  exists df,
    read_input (input_text genes) = Ok df /\
    preprocess_input df
    = flat_map (fun r => List.map (fun p => {| rec_gene := fst r; ko := snd p |})
                                  (snd r))
               genes.
Proof.
  intros Hok. eexists. split; [|now apply listed_rows_normalized].
  unfold read_input.
  rewrite (input_text_has_no genes Hok DQUOTE) by now right.
  rewrite (input_text_has_no genes Hok CR) by (left; now repeat split).
  rewrite (input_text_ascii genes Hok).
  cbn [orb negb]. rewrite (input_text_lines genes Hok).
  destruct genes as [|r rows]; [reflexivity|].
  pose proof (input_rows_collected (r :: rows) Hok) as Hcol.
  cbn [List.map] in Hcol |- *. rewrite Hcol. cbn [existsb ko_raw].
  rewrite bool_decide_eq_true_2 by eauto. reflexivity.
Qed.

(** Two genes, the first with two codes. *)
Lemma an_input_file_gives_a_record_per_listed_code_witness :
  exists df,
    read_input (line ["gene1"; "ko:K00001,ko:K00002"]
                +:+ line ["gene2"; "K00001"]) = Ok df /\
    preprocess_input df
    = [ {| rec_gene := "gene1"; ko := "K00001" |};
        {| rec_gene := "gene1"; ko := "K00002" |};
        {| rec_gene := "gene2"; ko := "K00001" |} ].
Proof.
  apply (an_input_file_gives_a_record_per_listed_code
           [("gene1", [(true, "K00001"); (true, "K00002")]);
            ("gene2", [(false, "K00001")])]).
  intros r [<-|[<-|[]]]; repeat split; try reflexivity; discriminate.
Defined.

(** ** The normalizer against its description *)

Lemma strip_namespace_prefixed code : strip_namespace ("ko:" +:+ code) = code.
Proof.
  unfold strip_namespace, startswith.
  assert (String.prefix "ko:" ("ko:" +:+ code) = true) as ->
    by (apply prefix_spec; now exists code).
  reflexivity.
Qed.

Lemma strip_namespace_cases piece :
  (exists code, piece = "ko:" +:+ code /\ strip_namespace piece = code) \/
  (String.prefix "ko:" piece = false /\ strip_namespace piece = piece).
Proof.
  destruct (String.prefix "ko:" piece) eqn:E.
  - left. apply prefix_spec in E as [code ->]. exists code.
    split; [reflexivity|apply strip_namespace_prefixed].
  - right. split; [reflexivity|]. unfold strip_namespace, startswith.
    now rewrite E.
Qed.

(** Where [ko:] stands at the front or nowhere, removing it everywhere
    is stripping the prefix. *)
Lemma replace_strips_namespace piece :
  contains "ko:" (strip_namespace piece) = false ->
  replace "ko:" "" piece = strip_namespace piece.
Proof.
  destruct (strip_namespace_cases piece) as [(code & -> & ->) | (_ & ->)].
  - intros Hc. unfold replace.
    change ("ko:" +:+ code) with (String "k" (String "o" (String ":" code))).
    cbn [replace_go String.prefix String.length Nat.sub].
    destruct (ascii_dec "k" "k"); [|contradiction].
    destruct (ascii_dec "o" "o"); [|contradiction].
    destruct (ascii_dec ":" ":"); [|contradiction].
    assert (String.prefix "" code = true) as -> by now destruct code.
    rewrite app_empty_l. now apply replace_absent.
  - apply replace_absent.
Qed.

Lemma strip_namespace_no c piece :
  has_char c piece = false -> has_char c (strip_namespace piece) = false.
Proof.
  destruct (strip_namespace_cases piece) as [(code & -> & ->) | (_ & ->)]; [|auto].
  rewrite has_char_app. now intros [_ H]%orb_false_iff.
Qed.

(** On a code without line break line 24 asks for the letter K and five
    digits and nothing else. *)
Lemma valid_ko_code g code :
  has_char NL code = false ->
  valid_ko {| rec_gene := g; ko := code |} = is_ko_code code.
Proof.
  intros Hnl. apply eq_true_iff_eq. rewrite valid_ko_shape. cbn [ko]. split.
  - intros [H|(k & E & _)]; [exact H|]. rewrite E in Hnl. unfold chr in Hnl.
    rewrite has_char_app, has_char_cons, Ascii.eqb_refl, orb_true_r in Hnl.
    discriminate.
  - now left.
Qed.

Lemma normalized_row g pieces :
  forallb plain_piece pieces = true ->
  preprocess_input [{| gene := g; ko_raw := Some (join "," pieces) |}]
  = List.flat_map
      (fun piece =>
         if is_ko_code (strip_namespace piece)
         then [{| rec_gene := g; ko := strip_namespace piece |}]
         else [])
      pieces.
Proof.
  intros Hok. rewrite forallb_forall in Hok.
  assert (forall p, In p pieces ->
            has_char ","%char p = false /\ has_char NL p = false /\
            contains "ko:" (strip_namespace p) = false) as Hp.
  { intros p Hin. specialize (Hok p Hin). unfold plain_piece in Hok.
    apply andb_true_iff in Hok as [Hok H3]. apply andb_true_iff in Hok as [Hok H2].
    apply andb_true_iff in Hok as [_ H1].
    apply negb_true_iff in H1, H2, H3. auto. }
  destruct (list_eq_nil_dec pieces) as [->|Hne]; [reflexivity|].
  assert (split_on ","%char (join "," pieces) = pieces) as Hsplit.
  { apply (split_on_join ","%char); [exact Hne|]. intros p Hin. now apply Hp. }
  destruct (string_dec (join "," pieces) "-") as [E|Hraw].
  - rewrite E in *. cbn in Hsplit. subst pieces. reflexivity.
  - rewrite (preprocess_input_row g _ pieces Hraw Hsplit).
    clear Hsplit Hraw Hne Hok. induction pieces as [|p pieces IH]; [reflexivity|].
    destruct (Hp p) as (_ & Hnl & Hko); [now left|].
    cbn [List.map List.filter flat_map].
    rewrite (replace_strips_namespace p Hko).
    rewrite (valid_ko_code g _ (strip_namespace_no NL p Hnl)).
    rewrite IH by (intros q Hq; apply Hp; now right).
    now destruct (is_ko_code (strip_namespace p)).
Qed.

Lemma normalized_frame rows :
  (forall g pieces, In (g, Some pieces) rows ->
                    forallb plain_piece pieces = true) ->
  preprocess_input (frame_of_pieces rows) = normalized rows.
Proof.
  unfold frame_of_pieces, normalized.
  induction rows as [|[g field] rows IH]; intros Hok; [reflexivity|].
  cbn [List.map flat_map fst snd].
  change (?x :: List.map ?f rows) with ([x] ++ List.map f rows).
  rewrite preprocess_input_app, IH by (intros g' ps H; apply (Hok g'); now right).
  f_equal. destruct field as [pieces|]; [|reflexivity].
  apply normalized_row, (Hok g). now left.
Qed.

(** C2, amended: on code fields of ASCII text without line breaks, in
    which [ko:] stands only in front of a listed code, normalization keeps
    exactly the codes that, the namespace prefix stripped, are the letter
    K and five digits (line 24 asks for K where the specification has any
    capital letter).  The output of [preprocess_input] is what the
    normalizer described in the specification gives with that pattern:
    piece by piece, in the order of the input; so every code of the
    output has the shape, and with it matches [^[A-Z]\d{5}$], and no piece
    of that shape is dropped.  A missing field and the placeholder give
    nothing. *)
Theorem preprocess_input_keeps_exactly_K_codes
    (rows : list (string * option (list string))) :
  text_column (frame_of_pieces rows) = true ->
  (forall g pieces, In (g, Some pieces) rows ->
                    forallb plain_piece pieces = true) ->
  preprocess_input (frame_of_pieces rows) = normalized rows /\
  List.Forall
    (fun r => is_ko_code (ko r) = true /\
              re_match_anchored letter_pattern (ko r) = true)
    (preprocess_input (frame_of_pieces rows)) /\
  (forall g pieces piece,
      In (g, Some pieces) rows -> In piece pieces ->
      is_ko_code (strip_namespace piece) = true ->
      In {| rec_gene := g; ko := strip_namespace piece |}
         (preprocess_input (frame_of_pieces rows))).
Proof.
  intros _ Hok. pose proof (normalized_frame rows Hok) as E.
  split; [exact E|]. split.
  - apply List.Forall_forall. intros r Hr. split.
    + rewrite E in Hr. unfold normalized in Hr.
      apply in_flat_map in Hr as ([g field] & _ & Hr). cbn [fst snd] in Hr.
      destruct field as [pieces|]; [|easy].
      apply in_flat_map in Hr as (piece & _ & Hr).
      destruct (is_ko_code (strip_namespace piece)) eqn:Hk; [|easy].
      destruct Hr as [<-|[]]. exact Hk.
    + apply ko_anchored_letter. unfold preprocess_input in Hr.
      now apply filter_In in Hr.
  - intros g pieces piece Hrow Hpiece Hk. rewrite E. unfold normalized.
    apply in_flat_map. exists (g, Some pieces). split; [exact Hrow|].
    cbn [fst snd]. apply in_flat_map. exists piece. split; [exact Hpiece|].
    rewrite Hk. now left.
Qed.

(** Of the four pieces of the first row the two codes that start with K
    and have five digits are kept, with and without the prefix; the row
    without a field and the row of the placeholder give nothing. *)
Lemma preprocess_input_keeps_exactly_K_codes_witness :
  preprocess_input (frame_of_pieces mixed_rows)
  = [ {| rec_gene := "gene1"; ko := "K00001" |};
      {| rec_gene := "gene1"; ko := "K00002" |} ].
Proof.
  destruct (preprocess_input_keeps_exactly_K_codes mixed_rows) as (E & _ & _).
  - reflexivity.
  - intros g pieces [[= <- <-]|[[=]|[[= <- <-]|[]]]]; reflexivity.
  - rewrite E. reflexivity.
Defined.

(** ** What a cache holds beyond the codes asked for *)




(** ** The row that deduplication keeps *)

(** C10: every pathway id of the mapping that has a description has its
    group in the summary; the groups leave [groupby] in key order, the
    exclusion drops or keeps all rows of a description together, and
    [drop_duplicates] keeps the first row of each description.  So a row
    that is kept stands for a pathway id of the mapping, with its
    description and the number of its edges, and its id is the smallest
    among all pathway ids of the mapping that have this description (the
    keys differ in the id alone), whatever the order of the edges was;
    every description that passes the exclusion keeps a row, and without
    exclusion every description of an id of the mapping does. *)
Theorem dedup_keeps_smallest_pathway_id
    (desc_map : gmap string string) (ids exclude_terms : list string)
    (filtered : list summary_row) :
  filtered = summarize desc_map ids \/
  exclusion_filter exclude_terms (summarize desc_map ids) = Ok filtered ->
  (forall r,
      In r (drop_duplicates filtered) ->
      In (pathway_id r) ids /\
      desc_map !! pathway_id r = Some (pathway_description r) /\
      KO_count r = count_occ string_dec ids (pathway_id r)) /\
  (forall r p,
      In r (drop_duplicates filtered) -> In p ids ->
      desc_map !! p = Some (pathway_description r) ->
      p = pathway_id r \/ String.compare (pathway_id r) p = Lt) /\
  (forall r', In r' filtered ->
              exists r, In r (drop_duplicates filtered) /\
                        pathway_description r = pathway_description r') /\
  (filtered = summarize desc_map ids ->
   forall p d, In p ids -> desc_map !! p = Some d ->
               exists r, In r (drop_duplicates filtered) /\
                         pathway_description r = d).
Proof.
  intros Hf.
  assert (forall r, In r filtered -> In r (summarize desc_map ids)) as Hsub.
  { destruct Hf as [->|Hf]; [auto|].
    apply exclusion_filter_spec in Hf as [keep ->].
    intros r Hr. now apply filter_In in Hr. }
  split; [|split; [|split]].
  - intros r Hr. apply drop_duplicates_In, Hsub, summarize_In in Hr
      as (H1 & H2 & H3 & _). auto.
  - intros r p Hr Hp Hd.
    pose proof (summarize_counts_every_edge desc_map ids p _ Hp Hd) as Hrow.
    destruct (kept_row_is_smallest_group desc_map ids exclude_terms filtered
                Hf r _ Hr Hrow eq_refl) as [E|Hlt].
    + left. now rewrite <- E.
    + now right.
  - intros r' Hr'. now apply drop_duplicates_from_complete.
  - intros -> p d Hp Hd.
    pose proof (summarize_counts_every_edge desc_map ids p d Hp Hd) as Hrow.
    destruct (drop_duplicates_from_complete _ [] _ Hrow) as (r & Hr & E);
      [easy|].
    exists r. split; [exact Hr|exact E].
Qed.

(** Edges of map00020 come first, all descriptions are [Unknown]: the row
    that stays is the one of map00010, the smallest id of the mapping. *)
Lemma dedup_keeps_smallest_pathway_id_witness :
  drop_duplicates
    (summarize unknown_descriptions ["map00020"; "map00010"; "map00020"])
  = [{| pathway_id := "map00010"; pathway_description := "Unknown";
        KO_count := 1 |}] /\
  forall r p,
    In r (drop_duplicates
            (summarize unknown_descriptions ["map00020"; "map00010"; "map00020"])) ->
    In p ["map00020"; "map00010"; "map00020"] ->
    unknown_descriptions !! p = Some (pathway_description r) ->
    p = pathway_id r \/ String.compare (pathway_id r) p = Lt.
Proof.
  split; [reflexivity|].
  apply (dedup_keeps_smallest_pathway_id unknown_descriptions
           ["map00020"; "map00010"; "map00020"] []).
  left. reflexivity.
Defined.
